(** * A task queue server with visibility timeouts (server.py)

    Shallow embedding of the classes [Task], [TaskQueue], [QueueDict] and
    [TaskQueueServer] of server.py, followed by the properties of the
    specification that are settled against them.

    Conventions of the embedding.
    - Python [str] values are [string]s; [bytes] answers are the [string]
      holding the same characters (every answer is either an ASCII literal or
      the [encode()] of a [str]).  Decoding of received bytes is outside the
      model: a received chunk is [Some text] when [decode()] returns and [None]
      when it raises [UnicodeDecodeError].
    - Every read of a connection is a [recv(1024)]: the data that arrives is
      cut into reads of 1024 bytes at most by [reads_of], and the accept loop
      hands those reads to the handler.
    - [time.time()] is an oracle: the [n]-th call returns [time_time n], a
      rational; the number of calls made so far is threaded through every
      function that reads the clock.  [uuid.uuid4()] is an oracle in the same
      way.
    - A Python object mutated in place is a value passed in and returned.  No
      [Task] is shared between two containers, so no aliasing is lost.
    - A call that raises returns [Raise e]; the state reached when the
      exception leaves the call is returned with it. *)

From Stdlib Require Import QArith.
From Stdlib Require Import Ascii String.
From stdpp Require Import gmap strings list fin_maps.

Open Scope Z_scope.

(** ** Builtins *)

(** [int(x)] on a float: truncation toward zero. *)
Definition int_of_float (x : Q) : Z := Z.quot (Qnum x) (Zpos (Qden x)).

(** [str.isspace] on the characters of this model (code points below 256):
    TAB, LF, VT, FF, CR, FS, GS, RS, US, SPACE, NEL and NBSP. *)
Definition isspace (c : ascii) : bool :=
  let k := nat_of_ascii c in
  ((9 <=? k) && (k <=? 13) || (28 <=? k) && (k <=? 32)
   || (k =? 133) || (k =? 160))%nat.

(** [str.split()] with no separator: maximal runs of characters that are not
    white space; [cur] is the run being read. *)
Fixpoint split_from (cur s : string) : list string :=
  match s with
  | EmptyString => if String.eqb cur "" then [] else [cur]
  | String c s' =>
      if isspace c then
        if String.eqb cur "" then split_from "" s'
        else cur :: split_from "" s'
      else split_from (cur +:+ String c "") s'
  end.

Definition split (s : string) : list string := split_from "" s.

Definition digit (c : ascii) : option Z :=
  let k := nat_of_ascii c in
  if ((48 <=? k) && (k <=? 57))%nat then Some (Z.of_nat k - 48) else None.

(** The digits of a decimal literal accepted by [int(str)]: single
    underscores are allowed between digits only.  [after_digit] says that the
    character just read was a digit. *)
Fixpoint int_digits (s : string) (acc : Z) (after_digit : bool) : option Z :=
  match s with
  | EmptyString => if after_digit then Some acc else None
  | String c s' =>
      match digit c with
      | Some d => int_digits s' (10 * acc + d) true
      | None =>
          if Ascii.eqb c "_" && after_digit then int_digits s' acc false
          else None
      end
  end.

(** [int(s)] for a [str] without white space (the tokens of [split] hold
    none, so the stripping [int] starts with has nothing to do): an optional
    sign and a decimal literal; [None] when [int] raises [ValueError]. *)
Definition int_of_str (s : string) : option Z :=
  match s with
  | String c s' =>
      if Ascii.eqb c "+" then int_digits s' 0 false
      else if Ascii.eqb c "-" then Z.opp <$> int_digits s' 0 false
      else int_digits s 0 false
  | EmptyString => None
  end.

(** ** The socket *)

(** The bytes of the UTF-8 encoding of a character of this model. *)
Definition char_bytes (c : ascii) : nat :=
  if (nat_of_ascii c <? 128)%nat then 1%nat else 2%nat.

Fixpoint utf8_len (s : string) : nat :=
  match s with
  | EmptyString => O
  | String c s' => (char_bytes c + utf8_len s')%nat
  end.

(** The first [budget] bytes of the data [s], decoded, and the data that is
    left.  The text is [None] when the cut falls inside a character: those
    bytes do not decode. *)
Fixpoint take_bytes (budget : nat) (s : string) : option string * string :=
  match s with
  | EmptyString => (Some "", "")
  | String c s' =>
      if (char_bytes c <=? budget)%nat then
        let (r, rest) := take_bytes (budget - char_bytes c) s' in
        (String c <$> r, rest)
      else if (budget =? 0)%nat then (Some "", s)
      else (None, s)
  end.

(** What successive [conn.recv(1024).decode()] calls make of a segment of
    data: reads of 1024 bytes at most.  After a read that does not decode
    this program never reads the connection again, so nothing is listed after
    it. *)
Fixpoint chop (fuel : nat) (s : string) : list (option string) :=
  match fuel with
  | O => []
  | S fuel' =>
      match take_bytes 1024 s with
      | (Some r, EmptyString) => [Some r]
      | (Some r, rest) => Some r :: chop fuel' rest
      | (None, _) => [None]
      end
  end.

(** The reads of a connection on which the segments [segments] arrive, a
    segment being [None] when its bytes do not decode.  An empty segment is
    the end of the data: [recv] returns [b''].  When the segments are read,
    no more data comes. *)
Fixpoint reads_of (segments : list (option string)) : list (option string) :=
  match segments with
  | [] => []
  | Some s :: segments' => chop (S (String.length s)) s ++ reads_of segments'
  | None :: segments' => None :: reads_of segments'
  end.

(** ** class Task *)

Module Task.

Record t := mk {
  task_id : string;
  length : string;
  data : string;
  timeout : Z;
  is_waiting : bool;
  start_wait_time : option Q
}.

(** [Task.__init__] *)
Definition init (task_id length data : string) (timeout : Z) : t :=
  mk task_id length data timeout false None.

Definition set_wait (task : t) (w : bool) (s : option Q) : t :=
  mk (task_id task) (length task) (data task) (timeout task) w s.

Section Clock.
Variable time_time : nat -> Q.

(** [Task.update]: the clock is read only when [start_wait_time] is set. *)
Definition update (task : t) (n : nat) : t * nat :=
  match start_wait_time task with
  | Some s =>
      if timeout task <=? int_of_float (Qminus (time_time n) s)
      then (set_wait task false None, S n)
      else (task, S n)
  | None => (task, n)
  end.

(** [Task.start_wait] *)
Definition start_wait (task : t) (n : nat) : t * nat :=
  (set_wait task true (Some (time_time n)), S n).
End Clock.

End Task.

(** ** class TaskQueue *)

Module TaskQueue.

Record t := mk { _tasks : list Task.t }.

(** [TaskQueue.__init__] *)
Definition init : t := mk [].

(** [TaskQueue.add_task] *)
Definition add_task (q : t) (task : Task.t) : t := mk (_tasks q ++ [task]).

(** [TaskQueue.in_task] *)
Fixpoint in_loop (tasks : list Task.t) (task_id : string) : bool :=
  match tasks with
  | [] => false
  | task :: rest =>
      if String.eqb (Task.task_id task) task_id then true
      else in_loop rest task_id
  end.

Definition in_task (q : t) (task_id : string) : bool :=
  in_loop (_tasks q) task_id.

Section Clock.
Variable time_time : nat -> Q.

(** The [for] loop of [TaskQueue.get_task]: the list after the loop, the
    task returned ([None] for Python's [None]) and the clock counter. *)
Fixpoint get_loop (tasks : list Task.t) (n : nat)
  : list Task.t * option Task.t * nat :=
  match tasks with
  | [] => ([], None, n)
  | task :: rest =>
      let (task1, n1) := Task.update time_time task n in
      if negb (Task.is_waiting task1) then
        let (task2, n2) := Task.start_wait time_time task1 n1 in
        (task2 :: rest, Some task2, n2)
      else
        let '(rest', r, n') := get_loop rest n1 in
        (task1 :: rest', r, n')
  end.

Definition get_task (q : t) (n : nat) : t * option Task.t * nat :=
  let '(tasks, r, n') := get_loop (_tasks q) n in (mk tasks, r, n').

(** The [for] loop of [TaskQueue.ack_task]; [del self._tasks[idx]] drops
    the task the loop stands on, and the function returns at once. *)
Fixpoint ack_loop (tasks : list Task.t) (task_id : string) (n : nat)
  : list Task.t * bool * nat :=
  match tasks with
  | [] => ([], false, n)
  | task :: rest =>
      if String.eqb (Task.task_id task) task_id then
        let (task1, n1) := Task.update time_time task n in
        if Task.is_waiting task1 then (rest, true, n1)
        else (task1 :: rest, false, n1)
      else
        let '(rest', r, n') := ack_loop rest task_id n in
        (task :: rest', r, n')
  end.

Definition ack_task (q : t) (task_id : string) (n : nat) : t * bool * nat :=
  let '(tasks, r, n') := ack_loop (_tasks q) task_id n in (mk tasks, r, n').
End Clock.

End TaskQueue.

(** ** External collaborators of the persistence code *)

(** [os.path.join(path, 'server.log')] on POSIX for a relative second part. *)
Fixpoint ends_with_slash (s : string) : bool :=
  match s with
  | EmptyString => false
  | String c EmptyString => Ascii.eqb c "/"%char
  | String _ s' => ends_with_slash s'
  end.

Definition os_path_join (path name : string) : string :=
  if String.eqb path "" then name
  else if ends_with_slash path then path +:+ name
  else path +:+ "/" +:+ name.

(** [pickle]: the encoding is the library's own; it is taken as a codec over
    the values this program pickles.  [pickle_load] is [None] when
    [pickle.load] raises. *)
Record Pickle (V : Type) := {
  blob : Type;
  pickle_dump : V -> blob;
  pickle_load : blob -> option V;
  getsize : blob -> Z
}.
Arguments blob {V} _.
Arguments pickle_dump {V} _ _.
Arguments pickle_load {V} _ _.
Arguments getsize {V} _ _.

(** The file system as this program sees it: the regular files by path, and
    the paths on which [open(path, 'wb')] raises [OSError] (missing or
    read-only directory, a directory at that path, ...). *)
Record FS (B : Type) := mkFS {
  files : gmap string B;
  unwritable : gset string
}.
Arguments mkFS {B} _ _.
Arguments files {B} _.
Arguments unwritable {B} _.

(** Exceptions that leave a call, and the ways a call can end. *)
Inductive exn := ParserError | IndexError | ValueError | OSError | UnpicklingError.

Inductive outcome (A : Type) :=
| Ret (a : A)
| Raise (e : exn)
| Hang.
Arguments Ret {A} _.
Arguments Raise {A} _.
Arguments Hang {A}.

(** ** class QueueDict *)

Module QueueDict.

Record t := mk { _queue_dict : gmap string TaskQueue.t }.

(** [QueueDict.__init__] *)
Definition init : t := mk ∅.

(** [QueueDict.add_task]: the queue is created when the name is new. *)
Definition add_task (d : t) (queue_name : string) (task : Task.t) : t * string :=
  let q := match _queue_dict d !! queue_name with
           | Some q => q
           | None => TaskQueue.init
           end in
  (mk (<[queue_name := TaskQueue.add_task q task]> (_queue_dict d)),
   Task.task_id task).

(** ["{} {} {}".format(task.task_id, task.length, task.data)] *)
Definition format (task : Task.t) : string :=
  Task.task_id task +:+ " " +:+ Task.length task +:+ " " +:+ Task.data task.

(** [QueueDict.in_task] *)
Definition in_task (d : t) (queue_name task_id : string) : string :=
  match _queue_dict d !! queue_name with
  | None => "ERROR"
  | Some q => if TaskQueue.in_task q task_id then "YES" else "NO"
  end.

Section Clock.
Variable time_time : nat -> Q.

(** [QueueDict.get_task] *)
Definition get_task (d : t) (queue_name : string) (n : nat)
  : t * string * nat :=
  match _queue_dict d !! queue_name with
  | None => (d, "NONE", n)
  | Some q =>
      let '(q', r, n') := TaskQueue.get_task time_time q n in
      let d' := mk (<[queue_name := q']> (_queue_dict d)) in
      match r with
      | Some task => (d', format task, n')
      | None => (d', "NONE", n')
      end
  end.

(** [QueueDict.ack_task] *)
Definition ack_task (d : t) (queue_name task_id : string) (n : nat)
  : t * string * nat :=
  match _queue_dict d !! queue_name with
  | None => (d, "ERROR", n)
  | Some q =>
      let '(q', r, n') := TaskQueue.ack_task time_time q task_id n in
      (mk (<[queue_name := q']> (_queue_dict d)),
       if r then "YES" else "NO", n')
  end.
End Clock.

Section Persistence.
Variable P : Pickle (gmap string TaskQueue.t).

(** [QueueDict.init_from_base]: reads the snapshot when it is a non-empty
    regular file. *)
Definition init_from_base (d : t) (path : string) (fs : FS (blob P))
  : outcome unit * t :=
  let path := os_path_join path "server.log" in
  match files fs !! path with
  | Some b =>
      if 0 <? getsize P b then
        match pickle_load P b with
        | Some m => (Ret (), mk m)
        | None => (Raise UnpicklingError, d)
        end
      else (Ret (), d)
  | None => (Ret (), d)
  end.

(** [QueueDict.save_to_drive]: [open(..., 'wb')] creates or truncates the
    file, [pickle.dump] fills it. *)
Definition save_to_drive (d : t) (path : string) (fs : FS (blob P))
  : outcome string * FS (blob P) :=
  let path := os_path_join path "server.log" in
  if decide (path ∈ unwritable fs) then (Raise OSError, fs)
  else (Ret "OK",
        mkFS (<[path := pickle_dump P (_queue_dict d)]> (files fs))
             (unwritable fs)).
End Persistence.

End QueueDict.

(** ** class TaskQueueServer *)

Module TaskQueueServer.

(** The attributes the request handlers use. *)
Record t := mk {
  _path : string;
  _timeout : Z;
  _queues : QueueDict.t
}.

(** [TaskQueueServer.__init__]: [x or default] takes the default for
    [None] and for a falsy value (the empty string, zero). *)
Definition init (path : option string) (timeout : option Z) : t :=
  mk (match path with
      | Some p => if String.eqb p "" then "server.log" else p
      | None => "server.log"
      end)
     (match timeout with
      | Some z => if z =? 0 then 300 else z
      | None => 300
      end)
     QueueDict.init.

(** What the process holds and sees: the server object, the numbers of
    [time.time()] and [uuid.uuid4()] calls made, and the file system. *)
Record state (B : Type) := mkState {
  self : t;
  ticks : nat;
  draws : nat;
  disk : FS B
}.
Arguments mkState {B} _ _ _ _.
Arguments self {B} _.
Arguments ticks {B} _.
Arguments draws {B} _.
Arguments disk {B} _.

Definition set_queues {B} (st : state B) (d : QueueDict.t) (n : nat) : state B :=
  mkState (mk (_path (self st)) (_timeout (self st)) d) n (draws st) (disk st).

(** The [while] loop of [recv_add]: [conn] lists what the coming
    [conn.recv(1024).decode()] calls produce, [None] for
    [UnicodeDecodeError].  When the declared length is not reached and no
    more data comes the loop never ends. *)
Fixpoint recv_payload (need : Z) (payload : string)
    (conn : list (option string)) : outcome string :=
  if Z.of_nat (String.length payload) <? need then
    match conn with
    | [] => Hang
    | None :: _ => Raise ParserError
    | Some data :: conn' => recv_payload need (payload +:+ data) conn'
    end
  else Ret payload.

Section World.
Variable time_time : nat -> Q.
Variable uuid4 : nat -> string.
Variable P : Pickle (gmap string TaskQueue.t).

Abbreviation state := (state (blob P)).

(** [TaskQueueServer.recv_add] *)
Definition recv_add (params : list string) (conn : list (option string))
    (st : state) : outcome string * state :=
  match params with
  | [_; queue_name; len; payload] =>
      match int_of_str len with
      | None => (Raise ValueError, st)
      | Some need =>
          match recv_payload need payload conn with
          | Ret payload' =>
              let task := Task.init (uuid4 (draws st)) len payload'
                                    (_timeout (self st)) in
              let (d, answer) :=
                QueueDict.add_task (_queues (self st)) queue_name task in
              (Ret answer,
               mkState (mk (_path (self st)) (_timeout (self st)) d)
                       (ticks st) (S (draws st)) (disk st))
          | Raise e => (Raise e, st)
          | Hang => (Hang, st)
          end
      end
  | _ => (Raise ParserError, st)
  end.

(** [TaskQueueServer.recv_get] *)
Definition recv_get (params : list string) (st : state)
  : outcome string * state :=
  match params with
  | [_; queue_name] =>
      let '(d, answer, n) :=
        QueueDict.get_task time_time (_queues (self st)) queue_name (ticks st) in
      (Ret answer, set_queues st d n)
  | _ => (Raise ParserError, st)
  end.

(** [TaskQueueServer.recv_ack] *)
Definition recv_ack (params : list string) (st : state)
  : outcome string * state :=
  match params with
  | [_; queue_name; task_id] =>
      let '(d, answer, n) :=
        QueueDict.ack_task time_time (_queues (self st)) queue_name task_id
                           (ticks st) in
      (Ret answer, set_queues st d n)
  | _ => (Raise ParserError, st)
  end.

(** [TaskQueueServer.recv_in] *)
Definition recv_in (params : list string) (st : state)
  : outcome string * state :=
  match params with
  | [_; queue_name; task_id] =>
      (Ret (QueueDict.in_task (_queues (self st)) queue_name task_id), st)
  | _ => (Raise ParserError, st)
  end.

(** [TaskQueueServer.save_to_drive] *)
Definition save_to_drive (params : list string) (st : state)
  : outcome string * state :=
  match params with
  | [_] =>
      let (r, fs) :=
        QueueDict.save_to_drive P (_queues (self st)) (_path (self st))
                                (disk st) in
      (r, mkState (self st) (ticks st) (draws st) fs)
  | _ => (Raise ParserError, st)
  end.

(** [TaskQueueServer.make_answer]: [params[0]] raises [IndexError] when
    the request holds no token. *)
Definition make_answer (data : string) (conn : list (option string))
    (st : state) : outcome string * state :=
  let params := split data in
  match params with
  | [] => (Raise IndexError, st)
  | cmd :: _ =>
      if String.eqb cmd "ADD" then recv_add params conn st
      else if String.eqb cmd "GET" then recv_get params st
      else if String.eqb cmd "ACK" then recv_ack params st
      else if String.eqb cmd "IN" then recv_in params st
      else if String.eqb cmd "SAVE" then save_to_drive params st
      else (Ret "ERROR", st)
  end.

(** [TaskQueueServer.server_recv]: [data] is what [data.decode()] makes
    of the first read.  Only [ParserError] is caught. *)
Definition server_recv (data : option string) (conn : list (option string))
    (st : state) : outcome string * state :=
  match data with
  | None => (Ret "ERROR", st)
  | Some text =>
      match make_answer text conn st with
      | (Raise ParserError, st') => (Ret "ERROR", st')
      | r => r
      end
  end.

(** The accept loop of [TaskQueueServer.run] over the connections that
    arrive, each given by the segment of data that comes first and the
    segments that follow.  Every read is a [recv(1024)]: the handler gets the
    reads [reads_of] makes of the segments, the first one as [data].  The
    result is the answers sent, and how the loop stands ([Ret ()]: waiting in
    [accept]; [Raise e]: left by an exception nothing catches; [Hang]: in a
    read that never returns). *)
Fixpoint serve (conns : list (option string * list (option string)))
    (st : state) : list string * outcome unit * state :=
  match conns with
  | [] => ([], Ret (), st)
  | (first, following) :: rest =>
      match reads_of (first :: following) with
      | [] => ([], Hang, st)
      | data :: conn =>
          match server_recv data conn st with
          | (Ret answer, st') =>
              let '(answers, r, st'') := serve rest st' in
              (answer :: answers, r, st'')
          | (Raise e, st') => ([], Raise e, st')
          | (Hang, st') => ([], Hang, st')
          end
      end
  end.

(** [TaskQueueServer.run]: the snapshot is loaded, then connections are
    served. *)
Definition run (conns : list (option string * list (option string)))
    (st : state) : list string * outcome unit * state :=
  match QueueDict.init_from_base P (_queues (self st)) (_path (self st))
                                 (disk st) with
  | (Ret _, d) => serve conns (set_queues st d (ticks st))
  | (Raise e, _) => ([], Raise e, st)
  | (Hang, _) => ([], Hang, st)
  end.
End World.

End TaskQueueServer.

(** * Vocabulary of the properties *)

(** The invariant of a task: [start_wait_time] is set exactly when the task
    is waiting. *)
Definition consistent (task : Task.t) : Prop :=
  Task.start_wait_time task <> None <-> Task.is_waiting task = true.

(** Every task of every queue of a registry is consistent. *)
Definition registry_consistent (d : QueueDict.t) : Prop :=
  forall name q, QueueDict._queue_dict d !! name = Some q ->
    Forall consistent (TaskQueue._tasks q).

Definition ids (q : TaskQueue.t) : list string :=
  Task.task_id <$> TaskQueue._tasks q.

(** The test of [Task.update] at the [n]-th clock reading. *)
Definition expired (time_time : nat -> Q) (task : Task.t) (n : nat) : bool :=
  match Task.start_wait_time task with
  | Some s => Task.timeout task <=? int_of_float (Qminus (time_time n) s)
  | None => false
  end.

(** A clock reading lies in the visibility window opened at [s0]: at least
    zero and fewer than [tmo] seconds have elapsed. *)
Definition in_window (s0 : Q) (tmo : Z) (now : Q) : Prop :=
  Qle 0 (Qminus now s0) /\ Qlt (Qminus now s0) (inject_Z tmo).

(** The task a [GET] on [queue_name] would dispatch now, if any. *)
Definition next_task (time_time : nat -> Q) (d : QueueDict.t)
    (queue_name : string) (n : nat) : option Task.t :=
  match QueueDict._queue_dict d !! queue_name with
  | Some q => (TaskQueue.get_task time_time q n).1.2
  | None => None
  end.

(** The number of words each command takes, the command included. *)
Definition arity (cmd : string) : option nat :=
  if String.eqb cmd "ADD" then Some 4%nat
  else if String.eqb cmd "GET" then Some 2%nat
  else if String.eqb cmd "ACK" then Some 3%nat
  else if String.eqb cmd "IN" then Some 3%nat
  else if String.eqb cmd "SAVE" then Some 1%nat
  else None.

(** [str(n)] for a natural number: its decimal digits, the last one first
    put before [acc]. *)
Fixpoint str_digits (fuel n : nat) (acc : string) : string :=
  match fuel with
  | O => acc
  | S fuel' =>
      let acc' := String (ascii_of_nat (48 + n mod 10)) acc in
      if (n <? 10)%nat then acc' else str_digits fuel' (n / 10) acc'
  end.

Definition str_of_nat (n : nat) : string := str_digits (S n) n "".

(** The text the chunks of a connection hold, in the order they came. *)
Definition join_chunks (chunks : list string) : string :=
  foldr String.append "" chunks.

(** Every task of the list that bears the id is waiting since [s0], with the
    timeout [tmo]. *)
Definition held (id : string) (s0 : Q) (tmo : Z) (tasks : list Task.t) : Prop :=
  Forall (fun t => Task.task_id t = id ->
            Task.is_waiting t = true /\ Task.start_wait_time t = Some s0 /\
            Task.timeout t = tmo) tasks.

Definition held_in (d : QueueDict.t) (queue_name id : string) (s0 : Q) (tmo : Z)
  : Prop :=
  forall q, QueueDict._queue_dict d !! queue_name = Some q ->
    held id s0 tmo (TaskQueue._tasks q).

(** The text holds no white space. *)
Fixpoint no_space (s : string) : bool :=
  match s with
  | EmptyString => true
  | String c s' => negb (isspace c) && no_space s'
  end.

(** No id of a task of the registry holds white space. *)
Definition ids_clean (d : QueueDict.t) : Prop :=
  forall name q, QueueDict._queue_dict d !! name = Some q ->
    Forall (fun t => no_space (Task.task_id t) = true) (TaskQueue._tasks q).

(** A token of a request: not empty and free of white space. *)
Definition token (s : string) : Prop := s <> "" /\ no_space s = true.

(** The ways one request can end, and the state each leaves: what
    [server_recv] does, by case. *)
Section Handled.
Variable time_time : nat -> Q.
Variable uuid4 : nat -> string.
Variable P : Pickle (gmap string TaskQueue.t).
Import TaskQueueServer.

Inductive handled (st : state (blob P)) (conn : list (option string))
  : outcome string -> state (blob P) -> Prop :=
| handled_error : handled st conn (Ret "ERROR") st
| handled_index : handled st conn (Raise IndexError) st
| handled_value : handled st conn (Raise ValueError) st
| handled_hang : handled st conn Hang st
| handled_add queue_name len payload need payload' :
    int_of_str len = Some need ->
    recv_payload need payload conn = Ret payload' ->
    let task := Task.init (uuid4 (draws st)) len payload' (_timeout (self st)) in
    handled st conn (Ret (Task.task_id task))
      (mkState (mk (_path (self st)) (_timeout (self st))
                   (QueueDict.add_task (_queues (self st)) queue_name task).1)
               (ticks st) (S (draws st)) (disk st))
| handled_get queue_name d answer n :
    QueueDict.get_task time_time (_queues (self st)) queue_name (ticks st)
      = (d, answer, n) ->
    handled st conn (Ret answer) (set_queues st d n)
| handled_ack queue_name task_id d answer n :
    QueueDict.ack_task time_time (_queues (self st)) queue_name task_id (ticks st)
      = (d, answer, n) ->
    handled st conn (Ret answer) (set_queues st d n)
| handled_in queue_name task_id :
    handled st conn
      (Ret (QueueDict.in_task (_queues (self st)) queue_name task_id)) st
| handled_save r fs :
    QueueDict.save_to_drive P (_queues (self st)) (_path (self st)) (disk st)
      = (r, fs) ->
    handled st conn r (mkState (self st) (ticks st) (draws st) fs).
End Handled.

(** ** A sample world

    One concrete clock, id supply and pickle codec, on which the properties
    are exercised: the clock advances one second per reading, the ids are
    [u], [xu], [xxu], ..., and the codec stores the mapping itself. *)
Definition sample_clock (n : nat) : Q := inject_Z (Z.of_nat n).

Fixpoint sample_uuid4 (n : nat) : string :=
  match n with
  | O => "u"
  | S k => String "x" (sample_uuid4 k)
  end.

Definition sample_pickle : Pickle (gmap string TaskQueue.t) :=
  {| blob := gmap string TaskQueue.t;
     pickle_dump := fun m => m;
     pickle_load := Some;
     getsize := fun _ => 1 |}.

(** [n] copies of a text, one after the other. *)
Fixpoint copies (n : nat) (s : string) : string :=
  match n with
  | O => ""
  | S k => s +:+ copies k s
  end.

(** A task dispatched at second 0 with a timeout of 300 seconds, and one
    that was never dispatched. *)
Definition sample_waiting : Task.t :=
  Task.mk "a" "5" "12345" 300 true (Some (inject_Z 0)).

Definition sample_fresh : Task.t := Task.init "b" "3" "abc" 300.

(** * Facts about the builtins *)

Lemma int_of_float_lt (x : Q) (z : Z) :
  Qle 0 x -> Qlt x (inject_Z z) -> int_of_float x < z.
Proof.
  destruct x as [a b]. unfold Qle, Qlt, int_of_float. simpl.
  intros Ha Hlt.
  assert (0 <= a) by lia.
  rewrite Z.quot_div_nonneg by lia.
  apply Z.div_lt_upper_bound; lia.
Qed.

Lemma int_of_float_ge (x : Q) (z : Z) :
  0 <= z -> Qle (inject_Z z) x -> z <= int_of_float x.
Proof.
  destruct x as [a b]. unfold Qle, int_of_float. simpl.
  intros Hz Hle.
  assert (0 <= a) by nia.
  rewrite Z.quot_div_nonneg by lia.
  apply Z.div_le_lower_bound; lia.
Qed.

(** * Facts about [Task] *)

Section TaskFacts.
Variable time_time : nat -> Q.
Implicit Types (task : Task.t) (n : nat).

Lemma update_cases task n :
  Task.update time_time task n =
    (if expired time_time task n then Task.set_wait task false None else task,
     match Task.start_wait_time task with Some _ => S n | None => n end).
Proof.
  unfold Task.update, expired. destruct (Task.start_wait_time task); [|done].
  by destruct (_ <=? _).
Qed.

Lemma update_task_id task n :
  Task.task_id (Task.update time_time task n).1 = Task.task_id task.
Proof. rewrite update_cases. simpl. by destruct (expired _ _ _). Qed.

Lemma update_ticks task n : (n <= (Task.update time_time task n).2)%nat.
Proof. rewrite update_cases. simpl. destruct (Task.start_wait_time task); lia. Qed.

(** A task still waiting after the refresh was not touched by it. *)
Lemma update_still_waiting task n :
  Task.is_waiting (Task.update time_time task n).1 = true ->
  (Task.update time_time task n).1 = task /\ expired time_time task n = false.
Proof. rewrite update_cases. simpl. by destruct (expired _ _ _). Qed.

Lemma update_not_waiting task n :
  Task.is_waiting task = false ->
  Task.is_waiting (Task.update time_time task n).1 = false.
Proof. rewrite update_cases. simpl. by destruct (expired _ _ _). Qed.

Lemma update_consistent task n :
  consistent task -> consistent (Task.update time_time task n).1.
Proof.
  rewrite update_cases. simpl. destruct (expired _ _ _); [|done].
  intros _. split; simpl; [congruence | discriminate].
Qed.

Lemma start_wait_consistent task n :
  consistent (Task.start_wait time_time task n).1.
Proof. split; simpl; [reflexivity | discriminate]. Qed.

Lemma init_consistent i l d z : consistent (Task.init i l d z).
Proof. split; simpl; [congruence | discriminate]. Qed.

(** Inside the window a waiting task does not expire. *)
Lemma in_window_not_expired task s0 n :
  Task.start_wait_time task = Some s0 ->
  in_window s0 (Task.timeout task) (time_time n) ->
  expired time_time task n = false.
Proof.
  intros Hs [H0 Hlt]. unfold expired. rewrite Hs.
  apply Z.leb_gt. by apply int_of_float_lt.
Qed.
End TaskFacts.

(** * Facts about [TaskQueue] *)

Section TaskQueueFacts.
Variable time_time : nat -> Q.
Implicit Types (task : Task.t) (tasks : list Task.t) (n : nat).

Lemma in_loop_elem tasks task_id :
  TaskQueue.in_loop tasks task_id = true <-> task_id ∈ Task.task_id <$> tasks.
Proof.
  induction tasks as [|task rest IH]; csimpl.
  - split; [discriminate | by intros ?%elem_of_nil].
  - destruct (String.eqb_spec (Task.task_id task) task_id) as [->|Hne].
    + split; [intros _; apply list_elem_of_here | done].
    + rewrite IH. split; [apply list_elem_of_further |].
      intros [?|?]%elem_of_cons; [congruence | done].
Qed.


Lemma in_loop_app tasks1 tasks2 task_id :
  TaskQueue.in_loop (tasks1 ++ tasks2) task_id =
  TaskQueue.in_loop tasks1 task_id || TaskQueue.in_loop tasks2 task_id.
Proof.
  induction tasks1 as [|task rest IH]; simpl; [done|].
  by destruct (String.eqb _ _).
Qed.

Lemma Forall_other_id tasks task_id :
  Forall (fun t => Task.task_id t <> task_id) tasks <->
  task_id ∉ Task.task_id <$> tasks.
Proof.
  rewrite Forall_forall, list_elem_of_fmap. split.
  - intros H (t & -> & Ht). by apply (H t).
  - intros H t Ht Heq. apply H. by exists t.
Qed.

(** The first task with a given id stands at one position only. *)
Lemma first_with_id_unique (pre : list Task.t) task post pre' task' post' :
  pre ++ task :: post = pre' ++ task' :: post' ->
  Task.task_id task ∉ Task.task_id <$> pre ->
  Task.task_id task' ∉ Task.task_id <$> pre' ->
  Task.task_id task' = Task.task_id task ->
  pre' = pre /\ task' = task /\ post' = post.
Proof.
  revert pre'. induction pre as [|p pre IH]; intros [|p' pre']; csimpl;
    intros Heq Hpre Hpre' Hid.
  - by injection Heq as <- <-.
  - injection Heq as -> _. exfalso. apply Hpre'. rewrite Hid.
    apply list_elem_of_here.
  - injection Heq as <- _. exfalso. apply Hpre. rewrite <- Hid.
    apply list_elem_of_here.
  - injection Heq as <- Heq.
    destruct (IH pre' Heq) as (-> & -> & ->); [| |done|done].
    + intros H. apply Hpre. by apply list_elem_of_further.
    + intros H. apply Hpre'. by apply list_elem_of_further.
Qed.

(** With distinct ids, the task standing at a position is the only one
    with its id. *)
Lemma unique_id_split pre task post t :
  NoDup (Task.task_id <$> pre ++ task :: post) ->
  t ∈ pre ++ task :: post -> Task.task_id t = Task.task_id task ->
  t = task /\ Task.task_id task ∉ Task.task_id <$> pre ++ post.
Proof.
  rewrite !fmap_app, fmap_cons. intros Hnd Ht Hid.
  apply NoDup_app in Hnd as (Hpre & Hx & Hpost).
  apply NoDup_cons in Hpost as [Hnot Hpost].
  assert (Task.task_id task ∉ Task.task_id <$> pre) as Hnpre.
  { intros Hin. apply (Hx _ Hin). apply list_elem_of_here. }
  split.
  - apply elem_of_app in Ht as [Ht|Ht].
    + exfalso. apply Hnpre. rewrite <- Hid. by apply list_elem_of_fmap_2.
    + apply elem_of_cons in Ht as [Ht|Ht]; [done|].
      exfalso. apply Hnot. rewrite <- Hid. by apply list_elem_of_fmap_2.
  - intros [?|?]%elem_of_app; done.
Qed.

(** What the loop of [get_task] does: nothing when every task is waiting
    and unexpired; otherwise the first available task is restarted, and every
    other task is left as it was. *)
Lemma get_loop_spec tasks n tasks' r n' :
  TaskQueue.get_loop time_time tasks n = (tasks', r, n') ->
  (n <= n')%nat /\
  match r with
  | None =>
      tasks' = tasks /\ Forall (fun t => Task.is_waiting t = true) tasks
  | Some t' =>
      exists pre task post k0 k,
        tasks = pre ++ task :: post /\ tasks' = pre ++ t' :: post /\
        Forall (fun t => Task.is_waiting t = true) pre /\
        Task.is_waiting (Task.update time_time task k0).1 = false /\
        t' = Task.set_wait task true (Some (time_time k)) /\
        (n <= k0 <= k)%nat /\ n' = S k
  end.
Proof.
  revert n tasks' r n'.
  induction tasks as [|task rest IH]; intros n tasks' r n'; simpl.
  - intros [= <- <- <-]. split; [lia | by split].
  - pose proof (update_ticks time_time task n) as Hn.
    destruct (Task.update time_time task n) as [task1 n1] eqn:Hup.
    simpl in Hn.
    destruct (Task.is_waiting task1) eqn:Hw; simpl.
    + destruct (TaskQueue.get_loop time_time rest n1) as [[rest' r1] n1'] eqn:Hrest.
      intros [= <- <- <-].
      destruct (IH _ _ _ _ Hrest) as [Hle Hr].
      assert (task1 = task) as ->.
      { pose proof (update_still_waiting time_time task n) as Hs.
        rewrite Hup in Hs. simpl in Hs. by destruct (Hs Hw). }
      split; [lia|].
      destruct r1 as [t'|].
      * destruct Hr as (pre & x & post & k0 & k & -> & -> & Hpre & Hx & -> & Hk & ->).
        exists (task :: pre), x, post, k0, k.
        repeat split; try done; try lia. by constructor.
      * destruct Hr as [-> Hall]. split; [done | by constructor].
    + intros [= <- <- <-]. split; [lia|].
      exists [], task, rest, n, n1. simpl.
      repeat split; try done; try lia.
      * by rewrite Hup.
      * assert (task1 = (Task.update time_time task n).1) as -> by by rewrite Hup.
        rewrite update_cases. simpl. by destruct (expired _ _ _).
Qed.

(** What the loop of [ack_task] does: it stops at the first task with the
    id, refreshes it at the current reading, and removes it when it is still
    waiting. *)
Lemma ack_loop_spec tasks task_id n tasks' r n' :
  TaskQueue.ack_loop time_time tasks task_id n = (tasks', r, n') ->
  (Forall (fun t => Task.task_id t <> task_id) tasks /\
   tasks' = tasks /\ r = false /\ n' = n)
  \/
  exists pre task post,
    tasks = pre ++ task :: post /\
    Forall (fun t => Task.task_id t <> task_id) pre /\
    Task.task_id task = task_id /\
    n' = (Task.update time_time task n).2 /\
    r = Task.is_waiting (Task.update time_time task n).1 /\
    tasks' = if r then pre ++ post
             else pre ++ (Task.update time_time task n).1 :: post.
Proof.
  revert tasks' r n'.
  induction tasks as [|task rest IH]; intros tasks' r n'; simpl.
  - intros [= <- <- <-]. left. by repeat split.
  - destruct (String.eqb_spec (Task.task_id task) task_id) as [Heq|Hne].
    + destruct (Task.update time_time task n) as [task1 n1] eqn:Hup.
      intros H. right. exists [], task, rest. simpl. rewrite Hup. simpl.
      destruct (Task.is_waiting task1) eqn:Hw;
        injection H as <- <- <-; by repeat split.
    + destruct (TaskQueue.ack_loop time_time rest task_id n)
        as [[rest' r1] n1] eqn:Hrest.
      intros [= <- <- <-].
      destruct (IH _ _ _ eq_refl) as [(Hall & -> & -> & ->)|
        (pre & x & post & -> & Hpre & Hx & -> & -> & ->)].
      * left. repeat split; try done. by constructor.
      * right. exists (task :: pre), x, post.
        repeat split; try done; [by constructor|].
        by destruct (Task.is_waiting _).
Qed.
End TaskQueueFacts.

(** * Acknowledgement *)

Section Acknowledge.
Variable time_time : nat -> Q.


End Acknowledge.



(** * A late acknowledgement *)

Section LateAck.
Variable time_time : nat -> Q.

(** A queue holding a task that is not waiting always dispatches: that
    task, or one that stands before it. *)
Lemma get_loop_available (pre : list Task.t) (x : Task.t) (post : list Task.t)
    (n : nat) :
  Task.is_waiting x = false ->
  exists t' k,
    (TaskQueue.get_loop time_time (pre ++ x :: post) n).1.2 = Some t' /\
    (t' = Task.set_wait x true (Some (time_time k)) \/
     Task.task_id t' ∈ Task.task_id <$> pre).
Proof.
  intros Hx. revert n. induction pre as [|p pre IH]; intros n; simpl.
  - pose proof (update_not_waiting time_time x n Hx) as Hw.
    destruct (Task.update time_time x n) as [x1 n1] eqn:Hup. simpl in Hw.
    rewrite Hw. simpl. eexists _, n1. split; [done|]. left.
    assert (x1 = (Task.update time_time x n).1) as -> by by rewrite Hup.
    rewrite update_cases. simpl. by destruct (expired _ _ _).
  - pose proof (update_task_id time_time p n) as Hid.
    destruct (Task.update time_time p n) as [p1 n1] eqn:Hup. simpl in Hid.
    destruct (Task.is_waiting p1); simpl.
    + destruct (IH n1) as (t' & k & Hget & Ht').
      destruct (TaskQueue.get_loop time_time (pre ++ x :: post) n1)
        as [[l r] m]. simpl in *.
      exists t', k. split; [done|].
      destruct Ht' as [?|?]; [by left | right]. csimpl.
      by apply list_elem_of_further.
    + eexists _, n1. split; [done|]. right. csimpl. rewrite <- Hid.
      apply list_elem_of_here.
Qed.

(** C9.  When the first task with the id is waiting and its window has
    elapsed at the reading [ack_task] takes, the acknowledgement fails, and
    the queue it leaves differs from the one it found: the task is no longer
    waiting and has no start time.  The next [get_task] then dispatches it,
    unless it dispatches a task standing before it. *)
Theorem ack_task_late_mutates (q : TaskQueue.t) (pre : list Task.t)
    (task : Task.t) (post : list Task.t) (s : Q) (n : nat) :
  TaskQueue._tasks q = pre ++ task :: post ->
  Task.task_id task ∉ Task.task_id <$> pre ->
  Task.is_waiting task = true ->
  Task.start_wait_time task = Some s ->
  Task.timeout task <= int_of_float (Qminus (time_time n) s) ->
  let task' := Task.set_wait task false None in
  let q' := TaskQueue.mk (pre ++ task' :: post) in
  TaskQueue.ack_task time_time q (Task.task_id task) n = (q', false, S n)
  /\ q' <> q
  /\ Task.is_waiting task' = false /\ Task.start_wait_time task' = None
  /\ forall m, exists t' k,
       (TaskQueue.get_task time_time q' m).1.2 = Some t' /\
       (t' = Task.set_wait task true (Some (time_time k)) \/
        Task.task_id t' ∈ Task.task_id <$> pre).
Proof.
  intros Hq Hpre Hw Hs Hexp task' q'.
  assert (Task.update time_time task n = (task', S n)) as Hup.
  { unfold Task.update. rewrite Hs.
    by destruct (Z.leb_spec (Task.timeout task)
                   (int_of_float (Qminus (time_time n) s))); [|lia]. }
  split; [|split; [|split; [done|split; [done|]]]].
  - unfold TaskQueue.ack_task. rewrite Hq.
    destruct (TaskQueue.ack_loop time_time (pre ++ task :: post)
                (Task.task_id task) n) as [[l r] k] eqn:Hloop.
    apply ack_loop_spec in Hloop
      as [(Hall & _)|(pre' & x & post' & Heq & Hpre' & Hx & -> & -> & ->)].
    + exfalso. rewrite Forall_forall in Hall. apply (Hall task); [|done].
      apply elem_of_app. right. apply list_elem_of_here.
    + apply Forall_other_id in Hpre'. rewrite <- Hx in Hpre'.
      destruct (first_with_id_unique pre task post pre' x post')
        as (-> & -> & ->); [done..|].
      rewrite Hup. simpl. done.
  - intros Heq. destruct q as [tasks]. simpl in Hq. subst tasks.
    injection Heq as Heq. apply app_inv_head in Heq.
    injection Heq as Heq. unfold task' in Heq.
    rewrite <- Heq in Hw. simpl in Hw. discriminate.
  - intros m. unfold TaskQueue.get_task. simpl.
    destruct (get_loop_available pre task' post m eq_refl) as (t' & k & Hget & Ht').
    destruct (TaskQueue.get_loop time_time (pre ++ task' :: post) m)
      as [[l r] j]. simpl in *.
    exists t', k. split; [done|]. destruct Ht' as [->|?]; [by left | by right].
Qed.
End LateAck.

(** A task dispatched at second 0 with a timeout of 300 seconds is
    acknowledged at second 300: the answer is a failure and the task is
    available again. *)
Lemma ack_task_late_mutates_witness :
  let q := TaskQueue.mk [sample_waiting; sample_fresh] in
  let q' := TaskQueue.mk [Task.set_wait sample_waiting false None; sample_fresh] in
  Task.timeout sample_waiting <=
    int_of_float (Qminus (sample_clock 300) (inject_Z 0)) /\
  TaskQueue.ack_task sample_clock q "a" 300 = (q', false, 301%nat) /\
  q' <> q.
Proof.
  intros q q'.
  assert (Task.timeout sample_waiting <=
            int_of_float (Qminus (sample_clock 300) (inject_Z 0))) as Hexp
    by (vm_compute; discriminate).
  destruct (ack_task_late_mutates sample_clock q [] sample_waiting [sample_fresh]
              (inject_Z 0) 300 eq_refl (not_elem_of_nil _) eq_refl eq_refl Hexp)
    as (Hack & Hne & _).
  split; [exact Hexp|]. split; [exact Hack | exact Hne].
Defined.

(** * Facts about [TaskQueueServer] *)

Section ServerFacts.
Variable time_time : nat -> Q.
Variable uuid4 : nat -> string.
Variable P : Pickle (gmap string TaskQueue.t).
Import TaskQueueServer.
Implicit Types (st : state (blob P)) (conn : list (option string)).

Lemma make_answer_handled data conn st o st' :
  make_answer time_time uuid4 P data conn st = (o, st') ->
  handled time_time uuid4 P st conn o st' \/ (o = Raise ParserError /\ st' = st).
Proof.
  unfold make_answer. destruct (split data) as [|cmd args]; [|].
  { intros [= <- <-]. left. constructor. }
  destruct (String.eqb cmd "ADD").
  { unfold recv_add.
    destruct args as [|queue_name [|len [|payload [|? ?]]]];
      try (intros [= <- <-]; by right).
    destruct (int_of_str len) as [need|] eqn:Hint;
      [|intros [= <- <-]; left; constructor].
    destruct (recv_payload need payload conn) as [payload'|e|] eqn:Hrecv.
    - intros [= <- <-]. left.
      by apply (handled_add _ _ _ _ _ queue_name len payload need payload').
    - revert Hrecv. clear. intros Hrecv [= <- <-].
      assert (e = ParserError) as ->; [|by right].
      revert payload Hrecv. induction conn as [|[chunk|] conn IH];
        intros payload; simpl; destruct (_ <? _); try done.
      + apply IH.
      + by intros [= <-].
    - intros [= <- <-]. left. constructor. }
  destruct (String.eqb cmd "GET").
  { unfold recv_get.
    destruct args as [|queue_name [|? ?]]; try (intros [= <- <-]; by right).
    destruct (QueueDict.get_task _ _ _ _) as [[d answer] n] eqn:Hget.
    intros [= <- <-]. left. by eapply handled_get. }
  destruct (String.eqb cmd "ACK").
  { unfold recv_ack.
    destruct args as [|queue_name [|task_id [|? ?]]];
      try (intros [= <- <-]; by right).
    destruct (QueueDict.ack_task _ _ _ _ _) as [[d answer] n] eqn:Hack.
    intros [= <- <-]. left. by eapply handled_ack. }
  destruct (String.eqb cmd "IN").
  { unfold recv_in.
    destruct args as [|queue_name [|task_id [|? ?]]];
      try (intros [= <- <-]; by right).
    intros [= <- <-]. left. apply handled_in. }
  destruct (String.eqb cmd "SAVE").
  { unfold save_to_drive.
    destruct args as [|? ?]; try (intros [= <- <-]; by right).
    destruct (QueueDict.save_to_drive _ _ _ _) as [r fs] eqn:Hsave.
    intros [= <- <-]. left. by apply handled_save. }
  intros [= <- <-]. left. constructor.
Qed.

(** Every request ends in one of the ways of [handled]. *)
Lemma server_recv_handled data conn st o st' :
  server_recv time_time uuid4 P data conn st = (o, st') ->
  handled time_time uuid4 P st conn o st'.
Proof.
  unfold server_recv. destruct data as [text|]; [|intros [= <- <-]; constructor].
  destruct (make_answer time_time uuid4 P text conn st) as [o1 st1] eqn:Hmk.
  apply make_answer_handled in Hmk as [Hh|[-> ->]].
  - destruct o1 as [a|e|]; [by intros [= <- <-]| |by intros [= <- <-]].
    destruct e; intros [= <- <-]; try done.
    inversion Hh as [| | | | | | | |r fs Hs]; subst.
    unfold QueueDict.save_to_drive in Hs. by destruct (decide _).
  - intros [= <- <-]. constructor.
Qed.
End ServerFacts.

(** * The waiting invariant *)

Section Invariant.
Variable time_time : nat -> Q.
Implicit Types (task : Task.t) (tasks : list Task.t) (q : TaskQueue.t).

Lemma Forall2_same {A} (R : A -> A -> Prop) (l : list A) :
  (forall x, R x x) -> Forall2 R l l.
Proof. intros HR. induction l; by constructor. Qed.

Lemma set_wait_true_consistent task s :
  consistent (Task.set_wait task true (Some s)).
Proof. split; simpl; [reflexivity | discriminate]. Qed.

Lemma get_task_consistent q n :
  Forall consistent (TaskQueue._tasks q) ->
  Forall consistent (TaskQueue._tasks (TaskQueue.get_task time_time q n).1.1).
Proof.
  unfold TaskQueue.get_task.
  destruct (TaskQueue.get_loop time_time (TaskQueue._tasks q) n)
    as [[tasks' r] n'] eqn:Hloop. simpl.
  apply get_loop_spec in Hloop as [_ Hr]. destruct r as [t'|].
  - destruct Hr as (pre & task & post & k0 & k & -> & -> & _ & _ & -> & _).
    rewrite !Forall_app, !Forall_cons. intros (Hpre & _ & Hpost).
    split; [done|]. split; [apply set_wait_true_consistent | done].
  - by destruct Hr as [-> _].
Qed.

Lemma ack_task_consistent q task_id n :
  Forall consistent (TaskQueue._tasks q) ->
  Forall consistent
    (TaskQueue._tasks (TaskQueue.ack_task time_time q task_id n).1.1).
Proof.
  unfold TaskQueue.ack_task.
  destruct (TaskQueue.ack_loop time_time (TaskQueue._tasks q) task_id n)
    as [[tasks' r] n'] eqn:Hloop. simpl.
  apply ack_loop_spec in Hloop
    as [(_ & -> & _)|(pre & x & post & -> & _ & _ & _ & -> & ->)]; [done|].
  rewrite !Forall_app, !Forall_cons. intros (Hpre & Hx & Hpost).
  destruct (Task.is_waiting _).
  - apply Forall_app. by split.
  - rewrite Forall_app, Forall_cons. split; [done|].
    split; [by apply update_consistent | done].
Qed.

Lemma add_task_consistent q task :
  Forall consistent (TaskQueue._tasks q) -> consistent task ->
  Forall consistent (TaskQueue._tasks (TaskQueue.add_task q task)).
Proof. intros Hq Ht. simpl. apply Forall_app. split; [done | by constructor]. Qed.

(** A registry stays consistent when one queue is replaced by a consistent
    one. *)
Lemma registry_consistent_insert (d : QueueDict.t) name q :
  registry_consistent d -> Forall consistent (TaskQueue._tasks q) ->
  registry_consistent (QueueDict.mk (<[name := q]> (QueueDict._queue_dict d))).
Proof.
  intros Hd Hq name' q'. simpl. rewrite lookup_insert.
  case_decide; [by intros [= <-] | apply Hd].
Qed.

Lemma registry_add_task_consistent (d : QueueDict.t) name task :
  registry_consistent d -> consistent task ->
  registry_consistent (QueueDict.add_task d name task).1.
Proof.
  intros Hd Ht. unfold QueueDict.add_task. simpl.
  apply registry_consistent_insert; [done|].
  apply add_task_consistent; [|done].
  destruct (QueueDict._queue_dict d !! name) as [q|] eqn:Hq;
    [by apply (Hd name) | constructor].
Qed.

Lemma registry_get_task_consistent (d : QueueDict.t) name n :
  registry_consistent d ->
  registry_consistent (QueueDict.get_task time_time d name n).1.1.
Proof.
  intros Hd. unfold QueueDict.get_task.
  destruct (QueueDict._queue_dict d !! name) as [q|] eqn:Hq; [|done].
  pose proof (get_task_consistent q n (Hd _ _ Hq)) as Hc.
  destruct (TaskQueue.get_task time_time q n) as [[q' r] n'].
  simpl in Hc. destruct r; simpl; by apply registry_consistent_insert.
Qed.

Lemma registry_ack_task_consistent (d : QueueDict.t) name task_id n :
  registry_consistent d ->
  registry_consistent (QueueDict.ack_task time_time d name task_id n).1.1.
Proof.
  intros Hd. unfold QueueDict.ack_task.
  destruct (QueueDict._queue_dict d !! name) as [q|] eqn:Hq; [|done].
  pose proof (ack_task_consistent q task_id n (Hd _ _ Hq)) as Hc.
  destruct (TaskQueue.ack_task time_time q task_id n) as [[q' r] n'].
  simpl in *. by apply registry_consistent_insert.
Qed.

(** [get_task] changes one task at most: the one it returns, which it
    leaves waiting. *)
Lemma get_task_changes q n q' r n' :
  TaskQueue.get_task time_time q n = (q', r, n') ->
  Forall2 (fun t t' => t' = t \/ (r = Some t' /\ Task.is_waiting t' = true))
          (TaskQueue._tasks q) (TaskQueue._tasks q').
Proof.
  unfold TaskQueue.get_task.
  destruct (TaskQueue.get_loop time_time (TaskQueue._tasks q) n)
    as [[tasks' r1] n1] eqn:Hloop.
  intros [= <- <- <-]. simpl.
  apply get_loop_spec in Hloop as [_ Hr]. destruct r1 as [t'|].
  - destruct Hr as (pre & task & post & k0 & k & -> & -> & _ & _ & -> & _).
    apply Forall2_app; [apply Forall2_same; by left|].
    constructor; [by right | apply Forall2_same; by left].
  - destruct Hr as [-> _]. apply Forall2_same. by left.
Qed.

(** A failed [ack_task] changes one task at most, by expiry. *)
Lemma ack_task_failed_changes q task_id n q' n' :
  TaskQueue.ack_task time_time q task_id n = (q', false, n') ->
  Forall2 (fun t t' => t' = t \/
             (Task.is_waiting t' = false /\
              (Task.is_waiting t = true -> expired time_time t n = true)))
          (TaskQueue._tasks q) (TaskQueue._tasks q').
Proof.
  unfold TaskQueue.ack_task.
  destruct (TaskQueue.ack_loop time_time (TaskQueue._tasks q) task_id n)
    as [[tasks' r1] n1] eqn:Hloop.
  intros [= <- -> <-]. simpl.
  apply ack_loop_spec in Hloop
    as [(_ & -> & _)|(pre & x & post & -> & _ & _ & _ & Hw & ->)].
  - apply Forall2_same. by left.
  - apply Forall2_app; [apply Forall2_same; by left|].
    constructor; [|apply Forall2_same; by left].
    right. split; [done|]. intros Hx.
    revert Hw. rewrite update_cases. simpl.
    destruct (expired time_time x n); [done|]. congruence.
Qed.

(** A successful [ack_task] removes one task, which was waiting. *)
Lemma ack_task_done_changes q task_id n q' n' :
  TaskQueue.ack_task time_time q task_id n = (q', true, n') ->
  exists pre task post,
    TaskQueue._tasks q = pre ++ task :: post /\
    TaskQueue._tasks q' = pre ++ post /\ Task.is_waiting task = true.
Proof.
  unfold TaskQueue.ack_task.
  destruct (TaskQueue.ack_loop time_time (TaskQueue._tasks q) task_id n)
    as [[tasks' r1] n1] eqn:Hloop.
  intros [= <- -> <-]. simpl.
  apply ack_loop_spec in Hloop
    as [(_ & _ & ? & _)|(pre & x & post & -> & _ & _ & _ & Hw & ->)]; [done|].
  exists pre, x, post. split; [done|]. split; [done|].
  symmetry in Hw. pose proof Hw as Hw'.
  apply update_still_waiting in Hw' as [Heq _]. by rewrite Heq in Hw.
Qed.
End Invariant.

Section ServerInvariant.
Variable time_time : nat -> Q.
Variable uuid4 : nat -> string.
Variable P : Pickle (gmap string TaskQueue.t).
Import TaskQueueServer.

Lemma handled_consistent (st st' : state (blob P)) conn o :
  handled time_time uuid4 P st conn o st' ->
  registry_consistent (_queues (self st)) ->
  registry_consistent (_queues (self st')).
Proof.
  intros Hh Hc. destruct Hh as [| | | |queue_name len payload need payload' _ _ task
    |queue_name d answer n Hget|queue_name task_id d answer n Hack| |r fs _];
    simpl; try done.
  - apply registry_add_task_consistent; [done | apply init_consistent].
  - pose proof (registry_get_task_consistent time_time _ queue_name (ticks st) Hc)
      as H. by rewrite Hget in H.
  - pose proof (registry_ack_task_consistent time_time _ queue_name task_id
                  (ticks st) Hc) as H. by rewrite Hack in H.
Qed.
End ServerInvariant.


(** * Snapshots *)

Section Snapshot.
Variable P : Pickle (gmap string TaskQueue.t).
Implicit Types (d : QueueDict.t) (fs : FS (blob P)).

Lemma save_to_drive_cases d path fs :
  let file := os_path_join path "server.log" in
  QueueDict.save_to_drive P d path fs =
    if decide (file ∈ unwritable fs) then (Raise OSError, fs)
    else (Ret "OK",
          mkFS (<[file := pickle_dump P (QueueDict._queue_dict d)]> (files fs))
               (unwritable fs)).
Proof. done. Qed.

(** Loading the file [save_to_drive] wrote gives back the mapping that was
    saved, whatever mapping was in memory. *)
Lemma save_then_load d d0 path fs fs' :
  pickle_load P (pickle_dump P (QueueDict._queue_dict d))
    = Some (QueueDict._queue_dict d) ->
  0 < getsize P (pickle_dump P (QueueDict._queue_dict d)) ->
  QueueDict.save_to_drive P d path fs = (Ret "OK", fs') ->
  QueueDict.init_from_base P d0 path fs' = (Ret (), d).
Proof.
  intros Hload Hsize. unfold QueueDict.save_to_drive, QueueDict.init_from_base.
  destruct (decide _); [done|]. intros [= <-]. simpl.
  rewrite lookup_insert_eq.
  destruct (Z.ltb_spec 0 (getsize P (pickle_dump P (QueueDict._queue_dict d))));
    [|lia].
  rewrite Hload. by destruct d.
Qed.
End Snapshot.

(** C6.  Under pickle's contract on the saved mapping (loading its pickle
    gives it back, and the pickle is not empty), [init_from_base] on the file
    a successful [save_to_drive] wrote, with the same path, puts the saved
    registry in memory: every queue, every task and every field of it, among
    them [is_waiting] and [start_wait_time] as the clock reading taken at
    dispatch.  So does a server started with the same path on the disk that
    a [SAVE] request left. *)
Theorem snapshot_round_trip (P : Pickle (gmap string TaskQueue.t))
    (d d0 : QueueDict.t) (path : string) (fs fs' : FS (blob P)) :
  pickle_load P (pickle_dump P (QueueDict._queue_dict d))
    = Some (QueueDict._queue_dict d) ->
  0 < getsize P (pickle_dump P (QueueDict._queue_dict d)) ->
  QueueDict.save_to_drive P d path fs = (Ret "OK", fs') ->
  QueueDict.init_from_base P d0 path fs' = (Ret (), d)
  /\ (forall name q i task,
        QueueDict._queue_dict d !! name = Some q ->
        TaskQueue._tasks q !! i = Some task ->
        exists q',
          QueueDict._queue_dict (QueueDict.init_from_base P d0 path fs').2 !! name
            = Some q' /\
          TaskQueue._tasks q' !! i = Some task)
  /\ (forall clock uuid4 timeout conn n k n' k',
        let st := TaskQueueServer.mkState (TaskQueueServer.mk path timeout d)
                    n k fs in
        let fresh := TaskQueueServer.mkState
                       (TaskQueueServer.mk path timeout QueueDict.init)
                       n' k' fs' in
        TaskQueueServer.server_recv clock uuid4 P (Some "SAVE") conn st
          = (Ret "OK", TaskQueueServer.mkState (TaskQueueServer.mk path timeout d)
                         n k fs')
        /\ TaskQueueServer.run clock uuid4 P [] fresh
          = ([], Ret (), TaskQueueServer.mkState
                           (TaskQueueServer.mk path timeout d) n' k' fs')).
Proof.
  intros Hload Hsize Hsave.
  pose proof (save_then_load P d d0 path fs fs' Hload Hsize Hsave) as Hrt.
  split; [done|]. split.
  - intros name q i task Hq Ht. rewrite Hrt. simpl. by exists q.
  - intros clock uuid4 timeout conn n k n' k' st fresh. split.
    + unfold TaskQueueServer.server_recv, TaskQueueServer.make_answer. simpl.
      unfold TaskQueueServer.save_to_drive. simpl. by rewrite Hsave.
    + unfold TaskQueueServer.run. simpl.
      by rewrite (save_then_load P d QueueDict.init path fs fs' Hload Hsize Hsave).
Qed.

(** A registry with one waiting task is saved under [./] and loaded by a
    server that starts with an empty registry. *)
Lemma snapshot_round_trip_witness :
  let d := QueueDict.mk {[ "1" := TaskQueue.mk [sample_waiting; sample_fresh] ]} in
  let fs : FS (blob sample_pickle) := mkFS ∅ ∅ in
  let fs' : FS (blob sample_pickle) :=
    mkFS {[ "./server.log" := QueueDict._queue_dict d ]} ∅ in
  QueueDict.save_to_drive sample_pickle d "./" fs = (Ret "OK", fs') /\
  QueueDict.init_from_base sample_pickle QueueDict.init "./" fs' = (Ret (), d).
Proof.
  intros d fs fs'.
  assert (QueueDict.save_to_drive sample_pickle d "./" fs = (Ret "OK", fs'))
    as Hsave by reflexivity.
  split; [exact Hsave|].
  apply (snapshot_round_trip sample_pickle d QueueDict.init "./" fs fs'
           eq_refl eq_refl Hsave).
Defined.

(** C7.  A [SAVE] request whose snapshot file cannot be opened for writing is
    not answered: [OSError] leaves [server_recv], the accept loop is left, and
    the request that follows is not served.  The registry is as it was.  The
    server is the one [TaskQueueServer()] builds, its path the default
    [server.log], and no directory of that name exists. *)
Theorem save_failure_aborts :
  let st : TaskQueueServer.state (blob sample_pickle) :=
    TaskQueueServer.mkState (TaskQueueServer.init None None) 0 0
      (mkFS ∅ {[ "server.log/server.log" ]}) in
  TaskQueueServer.server_recv sample_clock sample_uuid4 sample_pickle
    (Some "SAVE") [] st = (Raise OSError, st)
  /\ TaskQueueServer.serve sample_clock sample_uuid4 sample_pickle
       [(Some "SAVE", []); (Some "GET 1", [])] st = ([], Raise OSError, st).
Proof. split; reflexivity. Qed.

(** * The invariant and the snapshot *)

Section SnapshotInvariant.
Variable time_time : nat -> Q.
Variable uuid4 : nat -> string.
Variable P : Pickle (gmap string TaskQueue.t).
Import TaskQueueServer.

(** [init_from_base] leaves the registry as it is or replaces it by the
    mapping in the snapshot file. *)
Lemma init_from_base_consistent (d0 : QueueDict.t) path (fs : FS (blob P)) :
  registry_consistent d0 ->
  (forall b m,
     files fs !! os_path_join path "server.log" = Some b ->
     pickle_load P b = Some m -> registry_consistent (QueueDict.mk m)) ->
  registry_consistent (QueueDict.init_from_base P d0 path fs).2.
Proof.
  intros Hc Hfile. unfold QueueDict.init_from_base.
  destruct (files fs !! os_path_join path "server.log") as [b|] eqn:Hb; [|done].
  destruct (0 <? getsize P b); [|done].
  destruct (pickle_load P b) as [m|] eqn:Hm; [|done].
  simpl. by apply (Hfile b m).
Qed.

Lemma serve_consistent conns (st : state (blob P)) :
  registry_consistent (_queues (self st)) ->
  registry_consistent (_queues (self (serve time_time uuid4 P conns st).2)).
Proof.
  revert st. induction conns as [|[first following] conns IH]; intros st Hc;
    cbn [serve]; [done|].
  destruct (reads_of (first :: following)) as [|data conn]; [done|].
  destruct (server_recv time_time uuid4 P data conn st) as [o st1] eqn:Hrecv.
  apply server_recv_handled in Hrecv.
  pose proof (handled_consistent _ _ _ _ _ _ _ Hrecv Hc) as Hc1.
  destruct o as [answer|e|]; [|done..].
  specialize (IH st1 Hc1).
  by destruct (serve time_time uuid4 P conns st1) as [[answers r] st2].
Qed.

Lemma run_consistent conns (st : state (blob P)) :
  registry_consistent (_queues (self st)) ->
  (forall b m,
     files (disk st) !! os_path_join (_path (self st)) "server.log" = Some b ->
     pickle_load P b = Some m -> registry_consistent (QueueDict.mk m)) ->
  registry_consistent (_queues (self (run time_time uuid4 P conns st).2)).
Proof.
  intros Hc Hfile. unfold run.
  pose proof (init_from_base_consistent (_queues (self st)) (_path (self st))
                (disk st) Hc Hfile) as Hload.
  destruct (QueueDict.init_from_base P (_queues (self st)) (_path (self st))
              (disk st)) as [[u|e|] d]; [|done..].
  by apply serve_consistent.
Qed.
End SnapshotInvariant.

(** C8, as the code has it.  A task's start time is set exactly when the
    task is waiting: this holds of a new task and after [start_wait], and
    [update], the queue operations, the registry operations [add_task],
    [get_task] and [ack_task] and the handling of any request keep it.
    [init_from_base], and [run] with it, puts in memory the mapping the
    snapshot file unpickles to: they keep the invariant when that mapping
    has it, as it has when the file was written by [save_to_drive] from a
    registry that has it.  [update] never makes a task wait and stops a wait
    only on expiry;
    [add_task] leaves the tasks it finds as they are; [get_task] changes only
    the task it returns, which it leaves waiting; a failed [ack_task] changes
    one task at most, which it leaves not waiting, and only on expiry if that
    task was waiting; a successful [ack_task] removes one waiting task. *)
Theorem waiting_invariant :
  (forall i l d z, consistent (Task.init i l d z))
  /\ (forall clock task n, consistent (Task.start_wait clock task n).1)
  /\ (forall clock task n,
        consistent task -> consistent (Task.update clock task n).1)
  /\ (forall q task,
        Forall consistent (TaskQueue._tasks q) -> consistent task ->
        Forall consistent (TaskQueue._tasks (TaskQueue.add_task q task)))
  /\ (forall clock q n,
        Forall consistent (TaskQueue._tasks q) ->
        Forall consistent (TaskQueue._tasks (TaskQueue.get_task clock q n).1.1))
  /\ (forall clock q task_id n,
        Forall consistent (TaskQueue._tasks q) ->
        Forall consistent
          (TaskQueue._tasks (TaskQueue.ack_task clock q task_id n).1.1))
  /\ (forall d name task,
        registry_consistent d -> consistent task ->
        registry_consistent (QueueDict.add_task d name task).1)
  /\ (forall clock d name n,
        registry_consistent d ->
        registry_consistent (QueueDict.get_task clock d name n).1.1)
  /\ (forall clock d name task_id n,
        registry_consistent d ->
        registry_consistent (QueueDict.ack_task clock d name task_id n).1.1)
  /\ (forall clock uuid4 P data conn (st : TaskQueueServer.state (blob P)),
        registry_consistent (TaskQueueServer._queues (TaskQueueServer.self st)) ->
        registry_consistent
          (TaskQueueServer._queues (TaskQueueServer.self
             (TaskQueueServer.server_recv clock uuid4 P data conn st).2)))
  /\ (forall clock task n,
        Task.is_waiting task = false ->
        Task.is_waiting (Task.update clock task n).1 = false)
  /\ (forall clock task n,
        Task.is_waiting task = true ->
        Task.is_waiting (Task.update clock task n).1 = false ->
        exists s, Task.start_wait_time task = Some s /\
                  Task.timeout task <= int_of_float (Qminus (clock n) s))
  /\ (forall q task,
        TaskQueue._tasks (TaskQueue.add_task q task) = TaskQueue._tasks q ++ [task])
  /\ (forall clock q n q' r n',
        TaskQueue.get_task clock q n = (q', r, n') ->
        Forall2 (fun t t' => t' = t \/ (r = Some t' /\ Task.is_waiting t' = true))
                (TaskQueue._tasks q) (TaskQueue._tasks q'))
  /\ (forall clock q task_id n q' n',
        TaskQueue.ack_task clock q task_id n = (q', false, n') ->
        Forall2 (fun t t' => t' = t \/
                   (Task.is_waiting t' = false /\
                    (Task.is_waiting t = true -> expired clock t n = true)))
                (TaskQueue._tasks q) (TaskQueue._tasks q'))
  /\ (forall clock q task_id n q' n',
        TaskQueue.ack_task clock q task_id n = (q', true, n') ->
        exists pre task post,
          TaskQueue._tasks q = pre ++ task :: post /\
          TaskQueue._tasks q' = pre ++ post /\ Task.is_waiting task = true)
  /\ (forall P d0 path (fs : FS (blob P)),
        registry_consistent d0 ->
        (forall b m,
           files fs !! os_path_join path "server.log" = Some b ->
           pickle_load P b = Some m -> registry_consistent (QueueDict.mk m)) ->
        registry_consistent (QueueDict.init_from_base P d0 path fs).2)
  /\ (forall P d d0 path (fs fs' : FS (blob P)),
        pickle_load P (pickle_dump P (QueueDict._queue_dict d))
          = Some (QueueDict._queue_dict d) ->
        0 < getsize P (pickle_dump P (QueueDict._queue_dict d)) ->
        registry_consistent d ->
        QueueDict.save_to_drive P d path fs = (Ret "OK", fs') ->
        registry_consistent (QueueDict.init_from_base P d0 path fs').2)
  /\ (forall clock uuid4 P conns (st : TaskQueueServer.state (blob P)),
        registry_consistent (TaskQueueServer._queues (TaskQueueServer.self st)) ->
        (forall b m,
           files (TaskQueueServer.disk st)
             !! os_path_join (TaskQueueServer._path (TaskQueueServer.self st))
                             "server.log" = Some b ->
           pickle_load P b = Some m -> registry_consistent (QueueDict.mk m)) ->
        registry_consistent
          (TaskQueueServer._queues (TaskQueueServer.self
             (TaskQueueServer.run clock uuid4 P conns st).2))).
Proof.
  repeat apply conj.
  - apply init_consistent.
  - intros. apply start_wait_consistent.
  - intros. by apply update_consistent.
  - intros. by apply add_task_consistent.
  - intros. by apply get_task_consistent.
  - intros. by apply ack_task_consistent.
  - intros. by apply registry_add_task_consistent.
  - intros. by apply registry_get_task_consistent.
  - intros. by apply registry_ack_task_consistent.
  - intros clock uuid4 P data conn st Hc.
    destruct (TaskQueueServer.server_recv clock uuid4 P data conn st)
      as [o st'] eqn:Hrecv.
    apply server_recv_handled in Hrecv. simpl.
    by apply (handled_consistent _ _ _ _ _ _ _ Hrecv).
  - intros. by apply update_not_waiting.
  - intros clock task n Hw. rewrite update_cases. simpl.
    unfold expired. destruct (Task.start_wait_time task) as [s|]; [|congruence].
    destruct (Z.leb_spec (Task.timeout task) (int_of_float (Qminus (clock n) s)));
      [|congruence].
    intros _. by exists s.
  - done.
  - intros. by eapply get_task_changes.
  - intros. by eapply ack_task_failed_changes.
  - intros. by eapply ack_task_done_changes.
  - intros. by apply init_from_base_consistent.
  - intros P d d0 path fs fs' Hload Hsize Hc Hsave.
    rewrite (save_then_load P d d0 path fs fs' Hload Hsize Hsave). done.
  - intros. by apply run_consistent.
Qed.

(** Counterexample to C8.  A snapshot file that unpickles to a task which
    waits without a start time: [init_from_base], called on the empty
    registry, which has the invariant, leaves a registry that has it not. *)
Lemma load_breaks_invariant :
  let bad := Task.mk "a" "1" "x" 300 true None in
  let fs : FS (blob sample_pickle) :=
    mkFS {[ "./server.log" := {[ "1" := TaskQueue.mk [bad] ]} ]} ∅ in
  let d := (QueueDict.init_from_base sample_pickle QueueDict.init "./" fs).2 in
  registry_consistent QueueDict.init /\
  QueueDict._queue_dict d !! "1" = Some (TaskQueue.mk [bad]) /\
  Task.is_waiting bad = true /\ Task.start_wait_time bad = None /\
  ~ registry_consistent d.
Proof.
  intros bad fs d.
  assert (QueueDict._queue_dict d !! "1" = Some (TaskQueue.mk [bad])) as Hd
    by reflexivity.
  split; [|split; [exact Hd|split; [done|split; [done|]]]].
  - intros name q Hq. simpl in Hq. by rewrite lookup_empty in Hq.
  - intros Hc. specialize (Hc "1" _ Hd). apply Forall_cons in Hc as [[_ Hbad] _].
    by apply Hbad.
Qed.

(** * Facts about [split] and [int] *)

Lemma append_cons (c : ascii) (s1 s2 : string) :
  String c s1 +:+ s2 = String c (s1 +:+ s2).
Proof. done. Qed.

Lemma append_nil_l (s : string) : "" +:+ s = s.
Proof. done. Qed.

Lemma append_nil_r (s : string) : s +:+ "" = s.
Proof. induction s as [|c s IH]; [done|]. by rewrite append_cons, IH. Qed.

Lemma append_assoc (s1 s2 s3 : string) : (s1 +:+ s2) +:+ s3 = s1 +:+ (s2 +:+ s3).
Proof. induction s1 as [|c s1 IH]; [done|]. by rewrite !append_cons, IH. Qed.

Lemma length_append (s1 s2 : string) :
  String.length (s1 +:+ s2) = (String.length s1 + String.length s2)%nat.
Proof.
  induction s1 as [|c s1 IH]; [done|]. rewrite append_cons. simpl. by rewrite IH.
Qed.

(** Computes appends of literal text and the functions applied to them. *)
Ltac str_simpl :=
  repeat first [ rewrite append_cons | rewrite append_nil_l | progress simpl ].

(** Reading a run of characters that are not white space extends the run. *)
Lemma split_from_no_space (cur tok rest : string) :
  no_space tok = true ->
  split_from cur (tok +:+ rest) = split_from (cur +:+ tok) rest.
Proof.
  revert cur. induction tok as [|c tok IH]; intros cur.
  - by rewrite append_nil_l, append_nil_r.
  - rewrite append_cons. simpl.
    intros [Hc Htok]%andb_prop. apply negb_true_iff in Hc. rewrite Hc.
    rewrite IH by done. by rewrite append_assoc.
Qed.

(** A token followed by the end of the text is the last word. *)
Lemma split_from_last (tok : string) :
  token tok -> split_from "" tok = [tok].
Proof.
  intros [Hne Hns].
  rewrite <- (append_nil_r tok) at 1. rewrite split_from_no_space by done.
  rewrite append_nil_l. simpl. destruct (String.eqb_spec tok ""); done.
Qed.

(** A token followed by a white space character is a word. *)
Lemma split_from_word (tok : string) (c : ascii) (rest : string) :
  token tok -> isspace c = true ->
  split_from "" (tok +:+ String c rest) = tok :: split_from "" rest.
Proof.
  intros [Hne Hns] Hc. rewrite split_from_no_space by done.
  rewrite append_nil_l. simpl. rewrite Hc. destruct (String.eqb_spec tok ""); done.
Qed.

(** The words of [split] are tokens. *)
Lemma split_from_tokens (cur s : string) :
  no_space cur = true -> Forall token (split_from cur s).
Proof.
  assert (forall a b, no_space a = true -> no_space b = true ->
                      no_space (a +:+ b) = true) as Happ.
  { intros a b. induction a as [|c a IH]; [done|]. rewrite append_cons. simpl.
    intros [Hc Ha]%andb_prop Hb. by rewrite Hc, IH. }
  revert cur. induction s as [|c s IH]; intros cur Hcur; simpl.
  - destruct (String.eqb_spec cur ""); constructor; [by split | constructor].
  - destruct (isspace c) eqn:Hc.
    + destruct (String.eqb_spec cur ""); [by apply IH|].
      constructor; [by split | by apply IH].
    + apply IH. apply Happ; [done|]. simpl. by rewrite Hc.
Qed.

Lemma split_tokens (s : string) : Forall token (split s).
Proof. by apply split_from_tokens. Qed.

(** The requests of the protocol, word by word. *)
Lemma split_get (queue_name : string) :
  token queue_name -> split ("GET " +:+ queue_name) = ["GET"; queue_name].
Proof.
  intros Hq. unfold split. str_simpl. by rewrite split_from_last.
Qed.

Lemma split_in (queue_name task_id : string) :
  token queue_name -> token task_id ->
  split ("IN " +:+ queue_name +:+ " " +:+ task_id) = ["IN"; queue_name; task_id].
Proof.
  intros Hq Hi. unfold split. str_simpl.
  by rewrite split_from_word, split_from_last.
Qed.

Lemma split_ack (queue_name task_id : string) :
  token queue_name -> token task_id ->
  split ("ACK " +:+ queue_name +:+ " " +:+ task_id) = ["ACK"; queue_name; task_id].
Proof.
  intros Hq Hi. unfold split. str_simpl.
  by rewrite split_from_word, split_from_last.
Qed.

Lemma split_add (queue_name len payload : string) :
  token queue_name -> token len -> token payload ->
  split ("ADD " +:+ queue_name +:+ " " +:+ len +:+ " " +:+ payload)
    = ["ADD"; queue_name; len; payload].
Proof.
  intros Hq Hl Hp. unfold split. str_simpl.
  by rewrite !split_from_word, split_from_last.
Qed.

(** * Facts about the socket *)

Lemma take_bytes_fits (budget : nat) (s : string) :
  (utf8_len s <= budget)%nat -> take_bytes budget s = (Some s, "").
Proof.
  revert budget. induction s as [|c s IH]; intros budget Hle; [done|].
  simpl in *. destruct (Nat.leb_spec (char_bytes c) budget); [|lia].
  by rewrite IH by lia.
Qed.

(** Data of 1024 bytes at most comes in one read. *)
Lemma chop_fits (s : string) :
  (utf8_len s <= 1024)%nat -> chop (S (String.length s)) s = [Some s].
Proof. intros Hle. cbn [chop]. by rewrite take_bytes_fits. Qed.

(** What [take_bytes] returns is the data, cut in two, and the first part
    has [budget] bytes at most. *)
Lemma take_bytes_spec (budget : nat) (s r rest : string) :
  take_bytes budget s = (Some r, rest) ->
  s = r +:+ rest /\ (utf8_len r <= budget)%nat.
Proof.
  revert budget r. induction s as [|c s IH]; intros budget r; simpl.
  - intros [= <- <-]. split; [done | simpl; lia].
  - destruct (Nat.leb_spec (char_bytes c) budget) as [Hc|Hc].
    + destruct (take_bytes (budget - char_bytes c) s) as [[r1|] rest1] eqn:Htake;
        [|done].
      intros [= <- <-]. destruct (IH _ _ Htake) as [-> Hlen].
      split; [done | simpl; lia].
    + destruct (budget =? 0)%nat; [|done].
      intros [= <- <-]. split; [done | simpl; lia].
Qed.

(** Every read has 1024 bytes at most. *)
Lemma chop_bounded (fuel : nat) (s : string) :
  Forall (fun r => forall text, r = Some text -> (utf8_len text <= 1024)%nat)
         (chop fuel s).
Proof.
  revert s. induction fuel as [|fuel IH]; intros s; simpl; [constructor|].
  destruct (take_bytes 1024 s) as [[r|] rest] eqn:Htake.
  - apply take_bytes_spec in Htake as [_ Hlen].
    destruct rest; constructor; try (by intros ? [= <-]); [constructor | apply IH].
  - by repeat constructor.
Qed.

Lemma reads_of_bounded (segments : list (option string)) :
  Forall (fun r => forall text, r = Some text -> (utf8_len text <= 1024)%nat)
         (reads_of segments).
Proof.
  induction segments as [|[s|] segments IH]; cbn [reads_of].
  - constructor.
  - apply Forall_app. split; [apply chop_bounded | done].
  - by constructor.
Qed.

Section ServeFacts.
Variable time_time : nat -> Q.
Variable uuid4 : nat -> string.
Variable P : Pickle (gmap string TaskQueue.t).
Import TaskQueueServer.

(** One turn of the accept loop, given the reads of the connection. *)
Lemma serve_cons first following data conn rest (st : state (blob P)) :
  reads_of (first :: following) = data :: conn ->
  serve time_time uuid4 P ((first, following) :: rest) st =
  match server_recv time_time uuid4 P data conn st with
  | (Ret answer, st') =>
      let '(answers, r, st'') := serve time_time uuid4 P rest st' in
      (answer :: answers, r, st'')
  | (Raise e, st') => ([], Raise e, st')
  | (Hang, st') => ([], Hang, st')
  end.
Proof. intros Hreads. cbn [serve]. by rewrite Hreads. Qed.

(** A request of 1024 bytes at most that comes in one segment is read
    whole. *)
Lemma reads_of_short (text : string) (following : list (option string)) :
  (utf8_len text <= 1024)%nat ->
  reads_of (Some text :: following) = Some text :: reads_of following.
Proof. intros Hle. cbn [reads_of]. by rewrite chop_fits. Qed.
End ServeFacts.

(** * Unknown queues *)

Section UnknownQueue.
Variable time_time : nat -> Q.
Variable uuid4 : nat -> string.
Variable P : Pickle (gmap string TaskQueue.t).
Import TaskQueueServer.

Lemma set_queues_same (st : state (blob P)) :
  set_queues st (_queues (self st)) (ticks st) = st.
Proof. by destruct st as [[? ? ?] ? ? ?]. Qed.

(** C3, as the code has it.  On a name that has no queue, [GET] answers
    [NONE], the answer it also gives when a known queue has no available
    task, and [IN] and [ACK] answer [ERROR], the bytes of the protocol
    error.  Nothing is raised and the state is left as it was. *)
Theorem unknown_queue_answers (st : state (blob P))
    (queue_name task_id : string) (conn : list (option string)) :
  QueueDict._queue_dict (_queues (self st)) !! queue_name = None ->
  QueueDict.get_task time_time (_queues (self st)) queue_name (ticks st)
    = (_queues (self st), "NONE", ticks st)
  /\ QueueDict.in_task (_queues (self st)) queue_name task_id = "ERROR"
  /\ QueueDict.ack_task time_time (_queues (self st)) queue_name task_id (ticks st)
    = (_queues (self st), "ERROR", ticks st)
  /\ (forall data, split data = ["GET"; queue_name] ->
        server_recv time_time uuid4 P (Some data) conn st = (Ret "NONE", st))
  /\ (forall data, split data = ["IN"; queue_name; task_id] ->
        server_recv time_time uuid4 P (Some data) conn st = (Ret "ERROR", st))
  /\ (forall data, split data = ["ACK"; queue_name; task_id] ->
        server_recv time_time uuid4 P (Some data) conn st = (Ret "ERROR", st)).
Proof.
  intros Hq.
  assert (QueueDict.get_task time_time (_queues (self st)) queue_name (ticks st)
          = (_queues (self st), "NONE", ticks st)) as Hget
    by (unfold QueueDict.get_task; by rewrite Hq).
  assert (QueueDict.in_task (_queues (self st)) queue_name task_id = "ERROR")
    as Hin by (unfold QueueDict.in_task; by rewrite Hq).
  assert (QueueDict.ack_task time_time (_queues (self st)) queue_name task_id
            (ticks st) = (_queues (self st), "ERROR", ticks st)) as Hack
    by (unfold QueueDict.ack_task; by rewrite Hq).
  repeat apply conj; try done.
  - intros data Hs. unfold server_recv, make_answer. rewrite Hs. simpl.
    by rewrite Hget, set_queues_same.
  - intros data Hs. unfold server_recv, make_answer. rewrite Hs. simpl.
    by rewrite Hin.
  - intros data Hs. unfold server_recv, make_answer. rewrite Hs. simpl.
    by rewrite Hack, set_queues_same.
Qed.
End UnknownQueue.

(** The three requests on a server that was never sent an [ADD]. *)
Lemma unknown_queue_answers_witness :
  let st : TaskQueueServer.state (blob sample_pickle) :=
    TaskQueueServer.mkState (TaskQueueServer.init (Some "./") (Some 300)) 0 0
      (mkFS ∅ ∅) in
  TaskQueueServer.serve sample_clock sample_uuid4 sample_pickle
    [(Some "GET empty", []); (Some "IN empty 456789", []);
     (Some "ACK empty 456789", [])] st
  = (["NONE"; "ERROR"; "ERROR"], Ret (), st).
Proof.
  intros st.
  destruct (unknown_queue_answers sample_clock sample_uuid4 sample_pickle st
              "empty" "456789" [] eq_refl) as (_ & _ & _ & Hget & Hin & Hack).
  rewrite (serve_cons _ _ _ (Some "GET empty") [] (Some "GET empty") [] _ _ eq_refl),
    (Hget "GET empty" eq_refl).
  rewrite (serve_cons _ _ _ (Some "IN empty 456789") [] (Some "IN empty 456789") [] _ _ eq_refl),
    (Hin "IN empty 456789" eq_refl).
  rewrite (serve_cons _ _ _ (Some "ACK empty 456789") [] (Some "ACK empty 456789") [] _ _ eq_refl),
    (Hack "ACK empty 456789" eq_refl).
  reflexivity.
Defined.

(** Counterexample to C3.  The answer to [GET] on an unknown queue is the
    answer to [GET] on a known queue that holds no task, and the answers to
    [IN] and [ACK] on an unknown queue are the answer to a request with an
    unknown command: no answer is kept for the unknown queue. *)
Lemma unknown_queue_not_distinct :
  let d := QueueDict.mk {[ "known" := TaskQueue.init ]} in
  let st : TaskQueueServer.state (blob sample_pickle) :=
    TaskQueueServer.mkState (TaskQueueServer.mk "./" 300 d) 0 0 (mkFS ∅ ∅) in
  let answer data :=
    (TaskQueueServer.server_recv sample_clock sample_uuid4 sample_pickle
       (Some data) [] st).1 in
  QueueDict._queue_dict d !! "unknown" = None
  /\ answer "GET unknown" = Ret "NONE" /\ answer "GET known" = Ret "NONE"
  /\ answer "IN unknown 456789" = Ret "ERROR"
  /\ answer "ACK unknown 456789" = Ret "ERROR"
  /\ answer "ADDD 1 5 12345" = Ret "ERROR".
Proof. repeat split. Qed.

(** The characters of a decimal literal are not white space. *)
Lemma digit_not_space (c : ascii) (d : Z) : digit c = Some d -> isspace c = false.
Proof.
  unfold digit, isspace. generalize (nat_of_ascii c). intros k.
  destruct (48 <=? k)%nat eqn:H1; [|done].
  destruct (k <=? 57)%nat eqn:H2; [|done]. intros _.
  apply Nat.leb_le in H1, H2.
  repeat match goal with
         | |- context [(?a <=? ?b)%nat] => destruct (Nat.leb_spec a b); try lia
         | |- context [(?a =? ?b)%nat] => destruct (Nat.eqb_spec a b); try lia
         end; done.
Qed.

Lemma int_digits_no_space (s : string) (acc : Z) (b : bool) (z : Z) :
  int_digits s acc b = Some z -> no_space s = true /\ (b = false -> s <> "").
Proof.
  revert acc b. induction s as [|c s IH]; intros acc b; simpl.
  - destruct b; [|done]. by intros _.
  - destruct (digit c) as [d|] eqn:Hd.
    + intros [Hs _]%IH. by rewrite (digit_not_space c d Hd), Hs.
    + destruct (Ascii.eqb_spec c "_") as [->|]; [|done].
      destruct b; [|done]. simpl. intros [Hs _]%IH. by rewrite Hs.
Qed.

(** What [int] accepts is a token. *)
Lemma int_of_str_token (s : string) (z : Z) : int_of_str s = Some z -> token s.
Proof.
  destruct s as [|c s]; [done|]. unfold int_of_str.
  destruct (Ascii.eqb_spec c "+") as [->|Hp].
  { intros [Hs _]%int_digits_no_space. split; [done|]. simpl. by rewrite Hs. }
  destruct (Ascii.eqb_spec c "-") as [->|Hm].
  { destruct (int_digits s 0 false) as [z'|] eqn:Hz; [|done].
    apply int_digits_no_space in Hz as [Hs _]. intros _.
    split; [done|]. simpl. by rewrite Hs. }
  intros [Hs _]%int_digits_no_space. by split.
Qed.

(** * Malformed requests *)

Section Malformed.
Variable time_time : nat -> Q.
Variable uuid4 : nat -> string.
Variable P : Pickle (gmap string TaskQueue.t).
Import TaskQueueServer.
Implicit Types (st : state (blob P)) (conn : list (option string)).

(** A request whose first word is no command, or whose number of words is
    not the one its command takes, is answered [ERROR] and changes
    nothing. *)
Lemma malformed_request_error data conn st cmd args :
  split data = cmd :: args ->
  arity cmd <> Some (S (List.length args)) ->
  server_recv time_time uuid4 P (Some data) conn st = (Ret "ERROR", st).
Proof.
  intros Hs Har. unfold server_recv, make_answer. rewrite Hs.
  unfold arity in Har.
  destruct (String.eqb cmd "ADD").
  { unfold recv_add.
    by destruct args as [|? [|? [|? [|? ?]]]]. }
  destruct (String.eqb cmd "GET").
  { unfold recv_get. by destruct args as [|? [|? ?]]. }
  destruct (String.eqb cmd "ACK").
  { unfold recv_ack. by destruct args as [|? [|? [|? ?]]]. }
  destruct (String.eqb cmd "IN").
  { unfold recv_in. by destruct args as [|? [|? [|? ?]]]. }
  destruct (String.eqb cmd "SAVE").
  { unfold save_to_drive. by destruct args as [|? ?]. }
  done.
Qed.

(** A request without a word leaves [server_recv] by [IndexError]. *)
Lemma wordless_request_raises data conn st :
  split data = [] ->
  server_recv time_time uuid4 P (Some data) conn st = (Raise IndexError, st).
Proof. intros Hs. unfold server_recv, make_answer. by rewrite Hs. Qed.

(** An [ADD] whose declared length [int] rejects leaves [server_recv] by
    [ValueError], and no task is created. *)
Lemma add_bad_length_raises data conn st queue_name len payload :
  split data = ["ADD"; queue_name; len; payload] ->
  int_of_str len = None ->
  server_recv time_time uuid4 P (Some data) conn st = (Raise ValueError, st).
Proof.
  intros Hs Hl. unfold server_recv, make_answer. rewrite Hs. simpl.
  by rewrite Hl.
Qed.

End Malformed.

(** C4, where the code departs from it.  The empty request leaves
    [server_recv] by [IndexError] and an [ADD] with a declared length that is
    no integer by [ValueError]; neither is caught, the accept loop is left and
    the request that follows is not served.  No task is created.  A request
    with an unknown command or a wrong number of words is answered
    [ERROR]. *)
Theorem empty_request_aborts :
  let st : TaskQueueServer.state (blob sample_pickle) :=
    TaskQueueServer.mkState (TaskQueueServer.init (Some "./") (Some 300)) 0 0
      (mkFS ∅ ∅) in
  let recv data :=
    TaskQueueServer.server_recv sample_clock sample_uuid4 sample_pickle
      (Some data) [] st in
  let serve conns :=
    TaskQueueServer.serve sample_clock sample_uuid4 sample_pickle conns st in
  recv "" = (Raise IndexError, st)
  /\ recv "ADD 1 five 12345" = (Raise ValueError, st)
  /\ serve [(Some "", []); (Some "GET 1", [])] = ([], Raise IndexError, st)
  /\ serve [(Some "ADD 1 five 12345", []); (Some "GET 1", [])]
     = ([], Raise ValueError, st)
  /\ recv "ADDD 1 5 12345" = (Ret "ERROR", st)
  /\ recv "ADD 1 5" = (Ret "ERROR", st).
Proof. repeat split. Qed.

(** * Adding, then getting *)

Section AddGet.
Variable time_time : nat -> Q.
Variable uuid4 : nat -> string.
Variable P : Pickle (gmap string TaskQueue.t).
Import TaskQueueServer.
Implicit Types (st : state (blob P)) (conn : list (option string)).

(** No read follows when the first one holds the declared length. *)
Lemma recv_payload_enough need payload conn :
  need <= Z.of_nat (String.length payload) ->
  recv_payload need payload conn = Ret payload.
Proof.
  intros Hle. destruct conn; simpl;
    by destruct (Z.ltb_spec (Z.of_nat (String.length payload)) need); [lia|].
Qed.

(** The payload kept is the first one followed by every chunk that was
    read, whole; it has the declared length at least. *)
Lemma recv_payload_spec need payload conn stored :
  recv_payload need payload conn = Ret stored ->
  exists chunks rest,
    conn = (Some <$> chunks) ++ rest /\
    stored = payload +:+ join_chunks chunks /\
    need <= Z.of_nat (String.length stored).
Proof.
  revert payload. induction conn as [|[chunk|] conn IH]; intros payload; simpl;
    destruct (Z.ltb_spec (Z.of_nat (String.length payload)) need); try done.
  - intros [= <-]. exists [], []. by rewrite append_nil_r.
  - intros (chunks & rest & -> & -> & Hle)%IH.
    exists (chunk :: chunks), rest. simpl. by rewrite <- append_assoc.
  - intros [= <-]. exists [], (Some chunk :: conn). by rewrite append_nil_r.
  - intros [= <-]. exists [], (None :: conn). by rewrite append_nil_r.
Qed.

(** When the loop of [get_task] finds nothing in a list, it goes on with
    what follows the list. *)
Lemma get_loop_app_none tasks more n tasks' n' :
  TaskQueue.get_loop time_time tasks n = (tasks', None, n') ->
  TaskQueue.get_loop time_time (tasks ++ more) n =
    let '(more', r, n'') := TaskQueue.get_loop time_time more n' in
    (tasks' ++ more', r, n'').
Proof.
  revert n tasks'. induction tasks as [|task rest IH]; intros n tasks'; simpl.
  - intros [= <- <-]. by destruct (TaskQueue.get_loop time_time more n) as [[? ?] ?].
  - destruct (Task.update time_time task n) as [task1 n1].
    destruct (negb (Task.is_waiting task1)); [done|].
    destruct (TaskQueue.get_loop time_time rest n1) as [[rest' r] n1'] eqn:Hrest.
    intros [= <- -> <-]. rewrite (IH _ _ Hrest).
    by destruct (TaskQueue.get_loop time_time more n1') as [[? ?] ?].
Qed.

(** A new task put behind tasks none of which is available is the one
    [get_task] returns. *)
Lemma get_task_after_add (d : QueueDict.t) queue_name n i l p z :
  next_task time_time d queue_name n = None ->
  let task := Task.init i l p z in
  exists d' n',
    QueueDict.get_task time_time (QueueDict.add_task d queue_name task).1
      queue_name n = (d', QueueDict.format task, n').
Proof.
  intros Hnext task. unfold QueueDict.get_task, QueueDict.add_task. simpl.
  rewrite lookup_insert_eq. unfold next_task in Hnext.
  unfold TaskQueue.get_task in *.
  assert (forall m, TaskQueue.get_loop time_time [task] m =
            ([Task.set_wait task true (Some (time_time m))],
             Some (Task.set_wait task true (Some (time_time m))), S m)) as Hone
    by done.
  destruct (QueueDict._queue_dict d !! queue_name) as [q|]; simpl.
  - destruct (TaskQueue.get_loop time_time (TaskQueue._tasks q) n)
      as [[tasks' r] n1] eqn:Hloop. simpl in Hnext. subst r.
    rewrite (get_loop_app_none _ [task] _ _ _ Hloop), Hone. by eexists _, _.
  - by eexists _, _.
Qed.

(** The loop of [recv_add] puts a payload that comes in pieces together
    again, and stops there. *)
Lemma recv_payload_assembles (chunks : list string) (p0 : string)
    (rest : list (option string)) :
  recv_payload (Z.of_nat (String.length (p0 +:+ join_chunks chunks))) p0
    ((Some <$> chunks) ++ rest)
  = Ret (p0 +:+ join_chunks chunks).
Proof.
  revert p0. induction chunks as [|c chunks IH]; intros p0.
  - cbn [join_chunks foldr]. rewrite append_nil_r.
    apply recv_payload_enough. lia.
  - cbn [join_chunks foldr fmap list_fmap app recv_payload].
    fold (join_chunks chunks).
    destruct (Z.ltb_spec (Z.of_nat (String.length p0))
                (Z.of_nat (String.length (p0 +:+ c +:+ join_chunks chunks))))
      as [Hlt|Hge].
    + rewrite <- append_assoc. apply IH.
    + rewrite length_append in Hge.
      assert (c +:+ join_chunks chunks = "") as ->; [|by rewrite append_nil_r].
      destruct (c +:+ join_chunks chunks); [done | simpl in Hge; lia].
Qed.

(** An [ADD] that completes, then a [GET] on the same queue, when no task
    of the queue is available before: the answers are the new id, and the
    id, the declared length as it was written and the payload kept. *)
Lemma add_then_get_answers st first following first' following'
    data conn data' conn' queue_name len payload need stored :
  reads_of (first :: following) = Some data :: conn ->
  reads_of (first' :: following') = Some data' :: conn' ->
  split data = ["ADD"; queue_name; len; payload] ->
  split data' = ["GET"; queue_name] ->
  int_of_str len = Some need ->
  recv_payload need payload conn = Ret stored ->
  next_task time_time (_queues (self st)) queue_name (ticks st) = None ->
  exists st',
    serve time_time uuid4 P [(first, following); (first', following')] st
    = ([uuid4 (draws st);
        uuid4 (draws st) +:+ " " +:+ len +:+ " " +:+ stored], Ret (), st').
Proof.
  intros Hreads Hreads' Hs Hs' Hint Hrecv Hnext.
  rewrite (serve_cons _ _ _ _ _ _ _ _ _ Hreads).
  unfold server_recv at 1, make_answer. rewrite Hs. cbn -[serve].
  rewrite Hint, Hrecv. cbn -[serve].
  rewrite (serve_cons _ _ _ _ _ _ _ _ _ Hreads').
  unfold server_recv, make_answer. rewrite Hs'. simpl.
  destruct (get_task_after_add (_queues (self st)) queue_name (ticks st)
              (uuid4 (draws st)) len stored (_timeout (self st)) Hnext)
    as (d' & n' & Hget).
  unfold QueueDict.add_task in Hget. simpl in Hget. rewrite Hget.
  by eexists.
Qed.
End AddGet.

(** * [int(str(n))] *)

Lemma digit_of_nat (m : nat) :
  (m < 10)%nat -> digit (ascii_of_nat (48 + m)) = Some (Z.of_nat m).
Proof.
  intros Hm. unfold digit. rewrite nat_ascii_embedding by lia.
  destruct (Nat.leb_spec 48 (48 + m)); [|lia].
  destruct (Nat.leb_spec (48 + m) 57); [|lia].
  simpl. f_equal. lia.
Qed.

Lemma int_digits_digit (c : ascii) (s : string) (acc d : Z) (b : bool) :
  digit c = Some d -> int_digits (String c s) acc b = int_digits s (10 * acc + d) true.
Proof. intros Hd. cbn [int_digits]. by rewrite Hd. Qed.

Lemma str_digits_step (fuel n : nat) (acc : string) :
  str_digits (S fuel) n acc =
  if (n <? 10)%nat then String (ascii_of_nat (48 + n mod 10)) acc
  else str_digits fuel (n / 10) (String (ascii_of_nat (48 + n mod 10)) acc).
Proof. done. Qed.

Lemma int_digits_str_digits (fuel n : nat) (acc : string) (a : Z) (b : bool) :
  (n < fuel)%nat ->
  exists k : Z, 0 <= k /\
    int_digits (str_digits fuel n acc) a b
    = int_digits acc (a * 10 ^ k + Z.of_nat n) true.
Proof.
  revert n acc a b. induction fuel as [|fuel IH]; intros n acc a b Hn; [lia|].
  rewrite str_digits_step.
  pose proof (Nat.mod_upper_bound n 10) as Hmod.
  destruct (Nat.ltb_spec n 10) as [Hlt|Hge].
  - exists 1. split; [lia|].
    rewrite (int_digits_digit _ _ _ (Z.of_nat (n mod 10))) by (apply digit_of_nat; lia).
    rewrite Nat.mod_small by lia. f_equal. lia.
  - assert (n / 10 < fuel)%nat as Hdiv.
    { apply Nat.Div0.div_lt_upper_bound. lia. }
    destruct (IH (n / 10)%nat (String (ascii_of_nat (48 + n mod 10)) acc) a b Hdiv)
      as (k & Hk & ->).
    exists (k + 1). split; [lia|].
    rewrite (int_digits_digit _ _ _ (Z.of_nat (n mod 10))) by (apply digit_of_nat; lia).
    f_equal.
    rewrite Z.pow_add_r by lia.
    pose proof (Nat.div_mod_eq n 10) as Hdm.
    assert (Z.of_nat n = 10 * Z.of_nat (n / 10) + Z.of_nat (n mod 10)) by lia.
    lia.
Qed.

Lemma int_digits_int_of_str (s : string) (z : Z) :
  int_digits s 0 false = Some z -> int_of_str s = Some z.
Proof.
  destruct s as [|c s]; [done|]. unfold int_of_str.
  destruct (Ascii.eqb_spec c "+") as [->|_]; [done|].
  by destruct (Ascii.eqb_spec c "-") as [->|_].
Qed.

(** [int] reads the decimal text of a number as that number. *)
Lemma int_of_str_of_nat (n : nat) : int_of_str (str_of_nat n) = Some (Z.of_nat n).
Proof.
  apply int_digits_int_of_str. unfold str_of_nat.
  destruct (int_digits_str_digits (S n) n "" 0 false) as (k & _ & ->); [lia|].
  cbn [int_digits]. by rewrite Z.mul_0_l, Z.add_0_l.
Qed.

(** * The round trip of a payload *)

Lemma no_space_app (a b : string) :
  no_space (a +:+ b) = true -> no_space a = true /\ no_space b = true.
Proof.
  induction a as [|c a IH]; [done|]. rewrite append_cons. simpl.
  intros [Hc Hab]%andb_prop. destruct (IH Hab) as [Ha Hb]. by rewrite Hc, Ha.
Qed.

(** C5, as the code has it.  The queue name and the payload are tokens (not
    empty, no white space).  The first read of the [ADD] connection, of 1024
    bytes at most, holds the request up to some first part of the payload,
    not empty; the reads that follow bring the rest of the payload.  The
    first read of the [GET] connection holds that request.  No task of the
    queue is available at the time of the [GET].  Then the two requests are
    answered with the new id, and with the id, the length and the payload. *)
Theorem add_get_round_trip (time_time : nat -> Q) (uuid4 : nat -> string)
    (P : Pickle (gmap string TaskQueue.t))
    (st : TaskQueueServer.state (blob P)) (queue_name payload p0 : string)
    (chunks : list string) (first first' : option string)
    (following following' rest rest' : list (option string)) :
  token queue_name -> token payload ->
  p0 <> "" -> payload = p0 +:+ join_chunks chunks ->
  let len := str_of_nat (String.length payload) in
  reads_of (first :: following)
    = Some ("ADD " +:+ queue_name +:+ " " +:+ len +:+ " " +:+ p0)
      :: (Some <$> chunks) ++ rest ->
  reads_of (first' :: following') = Some ("GET " +:+ queue_name) :: rest' ->
  next_task time_time (TaskQueueServer._queues (TaskQueueServer.self st))
    queue_name (TaskQueueServer.ticks st) = None ->
  let id := uuid4 (TaskQueueServer.draws st) in
  exists st',
    TaskQueueServer.serve time_time uuid4 P
      [(first, following); (first', following')] st
    = ([id; id +:+ " " +:+ len +:+ " " +:+ payload], Ret (), st').
Proof.
  intros Hq [_ Hp] Hp0 Hpay len Hreads Hreads' Hnext id.
  pose proof (int_of_str_of_nat (String.length payload)) as Hint.
  assert (token p0) as Htok.
  { split; [done|]. rewrite Hpay in Hp. by apply no_space_app in Hp as [? _]. }
  apply (add_then_get_answers time_time uuid4 P st first following first'
           following' _ _ _ _ queue_name len p0
           (Z.of_nat (String.length payload)) payload Hreads Hreads').
  - apply split_add; [done| |done]. by apply (int_of_str_token _ _ Hint).
  - by apply split_get.
  - done.
  - rewrite Hpay. apply recv_payload_assembles.
  - done.
Qed.

(** A payload of 2000 characters sent with its request in one segment: the
    first read ends after 1013 characters of it, the second one brings the
    other 987. *)
Lemma add_get_round_trip_witness :
  let st : TaskQueueServer.state (blob sample_pickle) :=
    TaskQueueServer.mkState (TaskQueueServer.init (Some "./") (Some 300)) 0 0
      (mkFS ∅ ∅) in
  let payload := copies 400 "12345" in
  let p0 := copies 202 "12345" +:+ "123" in
  let chunk := "45" +:+ copies 197 "12345" in
  token "1" /\ token payload /\ payload = p0 +:+ join_chunks [chunk] /\
  reads_of [Some ("ADD 1 2000 " +:+ payload)]
    = [Some ("ADD 1 2000 " +:+ p0); Some chunk] /\
  exists st',
    TaskQueueServer.serve sample_clock sample_uuid4 sample_pickle
      [(Some ("ADD 1 2000 " +:+ payload), []); (Some "GET 1", [])] st
    = (["u"; "u 2000 " +:+ payload], Ret (), st').
Proof.
  intros st payload p0 chunk.
  assert (token "1") as H1 by (split; [discriminate | reflexivity]).
  assert (token payload) as H2 by (split; [discriminate | by vm_compute]).
  assert (p0 <> "") as H3 by discriminate.
  assert (payload = p0 +:+ join_chunks [chunk]) as H4 by (by vm_compute).
  assert (reads_of [Some ("ADD 1 2000 " +:+ payload)]
          = [Some ("ADD 1 2000 " +:+ p0); Some chunk]) as H5 by (by vm_compute).
  assert (reads_of [Some ("ADD 1 " +:+ str_of_nat (String.length payload)
                          +:+ " " +:+ payload)]
          = Some ("ADD " +:+ "1" +:+ " "
                  +:+ str_of_nat (String.length payload) +:+ " " +:+ p0)
            :: (Some <$> [chunk]) ++ []) as H6 by (by vm_compute).
  assert (reads_of [Some "GET 1"] = Some ("GET " +:+ "1") :: []) as H7
    by (by vm_compute).
  split; [exact H1|]. split; [exact H2|]. split; [exact H4|]. split; [exact H5|].
  destruct (add_get_round_trip sample_clock sample_uuid4 sample_pickle st
              "1" payload p0 [chunk] _ _ [] [] [] [] H1 H2 H3 H4 H6 H7 eq_refl)
    as [st' Hserve].
  exists st'. vm_compute in Hserve. vm_compute. exact Hserve.
Defined.

(** Counterexample to C5.  A payload of two words makes the [ADD] a request
    of five words, which is answered [ERROR], and the [GET] finds nothing.
    When the queue holds an older task that is available, the [GET] is
    answered with that task, not with the one just added.  And a queue name
    of 1100 characters does not fit in the first read of 1024 bytes: the
    [ADD] read has two words and is answered [ERROR]. *)
Lemma add_get_not_round_trip :
  let serve queue_name payload d :=
    (TaskQueueServer.serve sample_clock sample_uuid4 sample_pickle
       [(Some ("ADD " +:+ queue_name +:+ " "
               +:+ str_of_nat (String.length payload) +:+ " " +:+ payload), []);
        (Some ("GET " +:+ queue_name), [])]
       (TaskQueueServer.mkState (TaskQueueServer.mk "./" 300 d) 0 0
          (mkFS ∅ ∅))).1.1 in
  let id := sample_uuid4 0 in
  serve "1" "a b" QueueDict.init = ["ERROR"; "NONE"]
  /\ serve "1" "a b" QueueDict.init <> [id; id +:+ " 3 a b"]
  /\ serve "1" "12345" (QueueDict.mk {[ "1" := TaskQueue.mk [sample_fresh] ]})
     = [id; "b 3 abc"]
  /\ serve "1" "12345" (QueueDict.mk {[ "1" := TaskQueue.mk [sample_fresh] ]})
     <> [id; id +:+ " 5 12345"]
  /\ token (copies 1100 "q")
  /\ serve (copies 1100 "q") "12345" QueueDict.init = ["ERROR"; "NONE"]
  /\ serve (copies 1100 "q") "12345" QueueDict.init <> [id; id +:+ " 5 12345"].
Proof.
  repeat apply conj; try (by vm_compute); try (vm_compute; discriminate).
Qed.

(** * The declared length *)

Section DeclaredLength.
Variable time_time : nat -> Q.
Variable uuid4 : nat -> string.
Variable P : Pickle (gmap string TaskQueue.t).
Import TaskQueueServer.
Implicit Types (st : state (blob P)) (conn : list (option string)).

(** What an [ADD] that is answered has done. *)
Lemma add_completes st data conn queue_name len payload answer st' :
  split data = ["ADD"; queue_name; len; payload] ->
  make_answer time_time uuid4 P data conn st = (Ret answer, st') ->
  exists need chunks rest,
    int_of_str len = Some need /\
    conn = (Some <$> chunks) ++ rest /\
    recv_payload need payload conn = Ret (payload +:+ join_chunks chunks) /\
    need <= Z.of_nat (String.length (payload +:+ join_chunks chunks)) /\
    answer = uuid4 (draws st) /\
    st' = mkState
            (mk (_path (self st)) (_timeout (self st))
                (QueueDict.add_task (_queues (self st)) queue_name
                   (Task.init answer len (payload +:+ join_chunks chunks)
                      (_timeout (self st)))).1)
            (ticks st) (S (draws st)) (disk st).
Proof.
  intros Hs. unfold make_answer. rewrite Hs. simpl.
  destruct (int_of_str len) as [need|] eqn:Hint; [|done].
  destruct (recv_payload need payload conn) as [stored|e|] eqn:Hrecv; [|done..].
  intros [= <- <-].
  pose proof Hrecv as Hspec.
  apply recv_payload_spec in Hspec as (chunks & rest & -> & -> & Hle).
  by exists need, chunks, rest.
Qed.
End DeclaredLength.

(** C10.  When an [ADD] is answered, the task put in the queue holds the
    declared length as the word of the request, and as payload the word of
    the request followed by every chunk then read, whole; [int] of the
    declared length is at most the number of characters kept.  Whatever its
    waiting state, the task is formatted as its id, that word and that
    payload, and this is the answer of a [GET] that follows when no older task
    is available.  The number of characters can exceed the declared length:
    [ADD 1 1 12345] is kept and given back as [1 12345]. *)
Theorem declared_length_echoed :
  (forall time_time uuid4 P (st st' : TaskQueueServer.state (blob P))
          data conn queue_name len payload answer,
     split data = ["ADD"; queue_name; len; payload] ->
     TaskQueueServer.make_answer time_time uuid4 P data conn st = (Ret answer, st') ->
     exists need chunks rest,
       let stored := payload +:+ join_chunks chunks in
       let task := Task.init answer len stored
                     (TaskQueueServer._timeout (TaskQueueServer.self st)) in
       int_of_str len = Some need
       /\ conn = (Some <$> chunks) ++ rest
       /\ TaskQueueServer._queues (TaskQueueServer.self st')
          = (QueueDict.add_task
               (TaskQueueServer._queues (TaskQueueServer.self st))
               queue_name task).1
       /\ need <= Z.of_nat (String.length stored)
       /\ (forall w s,
             QueueDict.format (Task.set_wait task w s)
             = answer +:+ " " +:+ len +:+ " " +:+ stored)
       /\ (forall data' conn',
             split data' = ["GET"; queue_name] ->
             next_task time_time
               (TaskQueueServer._queues (TaskQueueServer.self st)) queue_name
               (TaskQueueServer.ticks st) = None ->
             (TaskQueueServer.server_recv time_time uuid4 P (Some data') conn' st').1
             = Ret (answer +:+ " " +:+ len +:+ " " +:+ stored)))
  /\ (let st : TaskQueueServer.state (blob sample_pickle) :=
        TaskQueueServer.mkState (TaskQueueServer.init (Some "./") (Some 300)) 0 0
          (mkFS ∅ ∅) in
      (TaskQueueServer.serve sample_clock sample_uuid4 sample_pickle
         [(Some "ADD 1 1 12345", []); (Some "GET 1", [])] st).1
      = (["u"; "u 1 12345"], Ret ())
      /\ int_of_str "1" = Some 1
      /\ String.length "12345" = 5%nat).
Proof.
  split; [|by repeat split].
  intros time_time uuid4 P st st' data conn queue_name len payload answer Hs Hmk.
  destruct (add_completes time_time uuid4 P st data conn queue_name len payload
              answer st' Hs Hmk)
    as (need & chunks & rest & Hint & Hconn & Hrecv & Hle & Hid & ->).
  exists need, chunks, rest. simpl.
  repeat apply conj; try done.
  intros data' conn' Hs' Hnext.
  unfold TaskQueueServer.server_recv, TaskQueueServer.make_answer.
  rewrite Hs'. simpl.
  destruct (get_task_after_add time_time
              (TaskQueueServer._queues (TaskQueueServer.self st)) queue_name
              (TaskQueueServer.ticks st) answer len
              (payload +:+ join_chunks chunks)
              (TaskQueueServer._timeout (TaskQueueServer.self st)) Hnext)
    as (d' & n' & Hget).
  unfold QueueDict.add_task in Hget. simpl in Hget. by rewrite Hget.
Qed.

(** A payload that comes in three reads, the last one longer than what was
    missing: all of it is kept. *)
Lemma declared_length_echoed_witness :
  let st : TaskQueueServer.state (blob sample_pickle) :=
    TaskQueueServer.mkState (TaskQueueServer.init (Some "./") (Some 300)) 0 0
      (mkFS ∅ ∅) in
  let conn := [Some "678"; Some "90ab"; Some "zz"] in
  split "ADD 1 10 12345" = ["ADD"; "1"; "10"; "12345"] /\
  exists st' need chunks rest,
    TaskQueueServer.make_answer sample_clock sample_uuid4 sample_pickle
      "ADD 1 10 12345" conn st = (Ret "u", st') /\
    int_of_str "10" = Some need /\ conn = (Some <$> chunks) ++ rest /\
    need <= Z.of_nat (String.length ("12345" +:+ join_chunks chunks)).
Proof.
  intros st conn. split; [reflexivity|].
  eexists.
  destruct (proj1 declared_length_echoed sample_clock sample_uuid4 sample_pickle
              st _ "ADD 1 10 12345" conn "1" "10" "12345" "u" eq_refl eq_refl)
    as (need & chunks & rest & Hint & Hconn & _ & Hle & _).
  exists need, chunks, rest. split; [reflexivity|]. by repeat split.
Defined.

(** * Visibility *)

Section Visibility.
Variable time_time : nat -> Q.
Variable id : string.
Variable s0 : Q.
Variable tmo : Z.
Implicit Types (task : Task.t) (tasks : list Task.t) (n : nat).

(** Inside the window the refresh leaves a held task as it is. *)
Lemma update_held task n :
  Task.is_waiting task = true -> Task.start_wait_time task = Some s0 ->
  Task.timeout task = tmo ->
  in_window s0 tmo (time_time n) ->
  Task.update time_time task n = (task, S n).
Proof.
  intros Hw Hs Ht Hwin. rewrite update_cases, Hs.
  rewrite (in_window_not_expired time_time task s0 n Hs); [done|].
  by rewrite Ht.
Qed.

(** While the clock stays in the window, [get_task] keeps the held tasks
    held and returns none of them. *)
Lemma get_loop_held tasks n tasks' r n' :
  held id s0 tmo tasks ->
  TaskQueue.get_loop time_time tasks n = (tasks', r, n') ->
  (forall k, (n <= k < n')%nat -> in_window s0 tmo (time_time k)) ->
  held id s0 tmo tasks' /\ (forall t, r = Some t -> Task.task_id t <> id).
Proof.
  revert n tasks' r n'.
  induction tasks as [|task rest IH]; intros n tasks' r n' Hheld; simpl.
  - intros [= <- <- <-] _. by split.
  - apply Forall_cons in Hheld as [Htask Hrest].
    destruct (decide (Task.task_id task = id)) as [Hid|Hid].
    + destruct (Htask Hid) as (Hw & Hs & Ht).
      destruct (Task.update time_time task n) as [task1 n1] eqn:Hup.
      destruct (Task.is_waiting task1) eqn:Hw1; simpl.
      * destruct (TaskQueue.get_loop time_time rest n1) as [[rest' r1] n1'] eqn:Hloop.
        intros [= <- <- <-] Hwin.
        pose proof (update_still_waiting time_time task n) as Hsame.
        rewrite Hup in Hsame. simpl in Hsame. destruct (Hsame Hw1) as [-> _].
        pose proof (update_ticks time_time task n) as Hn. rewrite Hup in Hn.
        simpl in Hn.
        destruct (IH _ _ _ _ Hrest Hloop) as [Hheld' Hr].
        { intros k Hk. apply Hwin. lia. }
        split; [|done]. by constructor.
      * intros [= <- <- <-] Hwin. exfalso.
        rewrite (update_held task n Hw Hs Ht) in Hup.
        -- injection Hup as <- <-. congruence.
        -- apply Hwin. rewrite update_cases, Hs in Hup.
           injection Hup as _ <-. lia.
    + pose proof (update_task_id time_time task n) as Hid1.
      pose proof (update_ticks time_time task n) as Hn.
      destruct (Task.update time_time task n) as [task1 n1] eqn:Hup.
      simpl in Hid1, Hn.
      destruct (Task.is_waiting task1) eqn:Hw1; simpl.
      * destruct (TaskQueue.get_loop time_time rest n1) as [[rest' r1] n1'] eqn:Hloop.
        intros [= <- <- <-] Hwin.
        destruct (IH _ _ _ _ Hrest Hloop) as [Hheld' Hr].
        { intros k Hk. apply Hwin. lia. }
        split; [|done]. constructor; [|done]. intros ?. congruence.
      * intros [= <- <- <-] _. split.
        -- constructor; [|done]. simpl. intros ?. congruence.
        -- intros t [= <-]. simpl. congruence.
Qed.

(** While the clock stays in the window, [ack_task] keeps the held tasks
    held. *)
Lemma ack_loop_held tasks task_id n tasks' r n' :
  held id s0 tmo tasks ->
  TaskQueue.ack_loop time_time tasks task_id n = (tasks', r, n') ->
  (forall k, (n <= k < n')%nat -> in_window s0 tmo (time_time k)) ->
  held id s0 tmo tasks'.
Proof.
  intros Hheld Hloop Hwin.
  apply ack_loop_spec in Hloop
    as [(_ & -> & _)|(pre & x & post & -> & _ & Hx & -> & -> & ->)]; [done|].
  apply Forall_app in Hheld as [Hpre Hpost].
  apply Forall_cons in Hpost as [Hxh Hpost].
  destruct (Task.is_waiting (Task.update time_time x n).1) eqn:Hw.
  - apply Forall_app. by split.
  - apply Forall_app. split; [done|]. constructor; [|done].
    rewrite update_task_id. intros Hid. exfalso.
    destruct (Hxh Hid) as (Hwx & Hs & Ht).
    rewrite (update_held x n Hwx Hs Ht) in Hw; [simpl in Hw; congruence|].
    apply Hwin. rewrite update_cases, Hs. simpl. lia.
Qed.

Lemma get_loop_ticks tasks n :
  (n <= (TaskQueue.get_loop time_time tasks n).2)%nat.
Proof.
  destruct (TaskQueue.get_loop time_time tasks n) as [[tasks' r] n'] eqn:Hloop.
  by apply get_loop_spec in Hloop as [Hle _].
Qed.

Lemma ack_loop_ticks tasks task_id n :
  (n <= (TaskQueue.ack_loop time_time tasks task_id n).2)%nat.
Proof.
  destruct (TaskQueue.ack_loop time_time tasks task_id n) as [[tasks' r] n'] eqn:Hloop.
  apply ack_loop_spec in Hloop
    as [(_ & _ & _ & ->)|(pre & x & post & _ & _ & _ & -> & _)]; simpl; [lia|].
  apply update_ticks.
Qed.

(** The task [get_task] returns holds its id alone when the ids are
    distinct. *)
Lemma get_loop_dispatch_held tasks n tasks' t n' s :
  NoDup (Task.task_id <$> tasks) ->
  TaskQueue.get_loop time_time tasks n = (tasks', Some t, n') ->
  Task.start_wait_time t = Some s ->
  held (Task.task_id t) s (Task.timeout t) tasks' /\
  Task.is_waiting t = true.
Proof.
  intros Hnd Hloop Hs.
  apply get_loop_spec in Hloop
    as (_ & pre & task & post & k0 & k & -> & -> & _ & _ & -> & _).
  simpl in *. split; [|done].
  assert (forall x, x ∈ pre ++ post -> Task.task_id x <> Task.task_id task) as Hne.
  { intros x Hx Heq.
    destruct (unique_id_split pre task post x Hnd) as [-> Hnot]; [|done|].
    - apply elem_of_app in Hx as [?|?]; apply elem_of_app; [by left|].
      right. by apply list_elem_of_further.
    - apply Hnot. by apply list_elem_of_fmap_2. }
  apply Forall_app. split; [|constructor].
  - apply Forall_forall. intros x Hx Heq. exfalso.
    apply (Hne x); [|done]. apply elem_of_app. by left.
  - by intros _.
  - apply Forall_forall. intros x Hx Heq. exfalso.
    apply (Hne x); [|done]. apply elem_of_app. by right.
Qed.
End Visibility.

Section ServerVisibility.
Variable time_time : nat -> Q.
Variable uuid4 : nat -> string.
Variable P : Pickle (gmap string TaskQueue.t).
Variable queue_name id : string.
Variable s0 : Q.
Variable tmo : Z.
Import TaskQueueServer.
Implicit Types (st : state (blob P)) (conn : list (option string)).

Lemma registry_get_task_held (d d' : QueueDict.t) name n answer n' :
  held_in d queue_name id s0 tmo ->
  QueueDict.get_task time_time d name n = (d', answer, n') ->
  (forall k, (n <= k < n')%nat -> in_window s0 tmo (time_time k)) ->
  held_in d' queue_name id s0 tmo /\ (n <= n')%nat.
Proof.
  intros Hheld. unfold QueueDict.get_task.
  destruct (QueueDict._queue_dict d !! name) as [q|] eqn:Hq;
    [|by intros [= <- <- <-]].
  unfold TaskQueue.get_task.
  destruct (TaskQueue.get_loop time_time (TaskQueue._tasks q) n)
    as [[tasks' r] n1] eqn:Hloop.
  assert (forall a, (QueueDict.mk (<[name:=TaskQueue.mk tasks']>
            (QueueDict._queue_dict d)), a, n1) = (d', answer, n') ->
          (forall k, (n <= k < n')%nat -> in_window s0 tmo (time_time k)) ->
          held_in d' queue_name id s0 tmo /\ (n <= n')%nat) as Hgoal.
  { intros a [= <- _ <-] Hwin.
    pose proof (get_loop_ticks time_time (TaskQueue._tasks q) n) as Hle.
    rewrite Hloop in Hle. split; [|done].
    intros q'. simpl. rewrite lookup_insert. case_decide as Hn.
    - subst name. intros [= <-]. simpl.
      by destruct (get_loop_held time_time id s0 tmo _ _ _ _ _
                     (Hheld _ Hq) Hloop Hwin).
    - apply Hheld. }
  destruct r; apply Hgoal.
Qed.

Lemma registry_ack_task_held (d d' : QueueDict.t) name task_id n answer n' :
  held_in d queue_name id s0 tmo ->
  QueueDict.ack_task time_time d name task_id n = (d', answer, n') ->
  (forall k, (n <= k < n')%nat -> in_window s0 tmo (time_time k)) ->
  held_in d' queue_name id s0 tmo /\ (n <= n')%nat.
Proof.
  intros Hheld. unfold QueueDict.ack_task.
  destruct (QueueDict._queue_dict d !! name) as [q|] eqn:Hq;
    [|by intros [= <- <- <-]].
  unfold TaskQueue.ack_task.
  destruct (TaskQueue.ack_loop time_time (TaskQueue._tasks q) task_id n)
    as [[tasks' r] n1] eqn:Hloop.
  intros [= <- _ <-] Hwin.
  pose proof (ack_loop_ticks time_time (TaskQueue._tasks q) task_id n) as Hle.
  rewrite Hloop in Hle. split; [|done].
  intros q'. simpl. rewrite lookup_insert. case_decide as Hn.
  - subst name. intros [= <-]. simpl.
    by apply (ack_loop_held time_time id s0 tmo _ _ _ _ _ _ (Hheld _ Hq) Hloop).
  - apply Hheld.
Qed.

Lemma registry_add_task_held (d : QueueDict.t) name task :
  held_in d queue_name id s0 tmo -> Task.task_id task <> id ->
  held_in (QueueDict.add_task d name task).1 queue_name id s0 tmo.
Proof.
  intros Hheld Hid q'. unfold QueueDict.add_task. simpl.
  rewrite lookup_insert. case_decide as Hn; [|apply Hheld].
  subst name. intros [= <-]. simpl. apply Forall_app. split.
  - destruct (QueueDict._queue_dict d !! queue_name) as [q|] eqn:Hq;
      [by apply Hheld | constructor].
  - constructor; [done | constructor].
Qed.

(** One request keeps the held tasks held, when the clock readings it takes
    lie in the window and the id it draws is another one. *)
Lemma handled_held st st' conn o :
  handled time_time uuid4 P st conn o st' ->
  held_in (_queues (self st)) queue_name id s0 tmo ->
  (forall k, (ticks st <= k < ticks st')%nat -> in_window s0 tmo (time_time k)) ->
  uuid4 (draws st) <> id ->
  held_in (_queues (self st')) queue_name id s0 tmo.
Proof.
  intros Hh Hheld Hwin Hfresh.
  destruct Hh as [| | | |name len payload need payload' _ _ task
    |name d answer n Hget|name task_id d answer n Hack| |r fs _];
    simpl in *; try done.
  - by apply registry_add_task_held.
  - by destruct (registry_get_task_held _ _ _ _ _ _ Hheld Hget Hwin).
  - by destruct (registry_ack_task_held _ _ _ _ _ _ _ Hheld Hack Hwin).
Qed.

(** The counters of clock readings and of ids drawn never go back. *)
Lemma handled_counters st st' conn o :
  handled time_time uuid4 P st conn o st' ->
  (ticks st <= ticks st')%nat /\ (draws st <= draws st')%nat.
Proof.
  intros Hh.
  destruct Hh as [| | | |name len payload need payload' _ _ task
    |name d answer n Hget|name task_id d answer n Hack| |r fs _];
    simpl in *; try lia.
  - split; [|done]. revert Hget. unfold QueueDict.get_task.
    destruct (QueueDict._queue_dict _ !! name) as [q|];
      [|intros [= _ _ <-]; lia].
    unfold TaskQueue.get_task.
    pose proof (get_loop_ticks time_time (TaskQueue._tasks q) (ticks st)) as Hle.
    destruct (TaskQueue.get_loop _ _ _) as [[? r] ?].
    by destruct r; intros [= _ _ <-].
  - split; [|done]. revert Hack. unfold QueueDict.ack_task.
    destruct (QueueDict._queue_dict _ !! name) as [q|];
      [|intros [= _ _ <-]; lia].
    unfold TaskQueue.ack_task.
    pose proof (ack_loop_ticks time_time (TaskQueue._tasks q) task_id (ticks st))
      as Hle.
    destruct (TaskQueue.ack_loop _ _ _ _) as [[? r] ?].
    by intros [= _ _ <-].
Qed.

(** The counter of clock readings never goes back in a run of requests. *)
Lemma serve_ticks conns st answers r st' :
  serve time_time uuid4 P conns st = (answers, r, st') ->
  (ticks st <= ticks st')%nat.
Proof.
  revert st answers r st'.
  induction conns as [|[first following] conns IH]; intros st answers r st';
    cbn [serve].
  - by intros [= <- <- <-].
  - destruct (reads_of (first :: following)) as [|data conn];
      [by intros [= <- <- <-]|].
    destruct (server_recv time_time uuid4 P data conn st) as [o st1] eqn:Hrecv.
    apply server_recv_handled, handled_counters in Hrecv as [Ht _].
    destruct o as [answer|e|]; [|by intros [= _ _ <-]..].
    destruct (serve time_time uuid4 P conns st1) as [[a r1] st2] eqn:Hserve.
    intros [= _ _ <-]. specialize (IH _ _ _ _ Hserve). lia.
Qed.

(** Any run of requests keeps the held tasks held, under the same
    conditions. *)
Lemma serve_held conns st answers r st' :
  serve time_time uuid4 P conns st = (answers, r, st') ->
  held_in (_queues (self st)) queue_name id s0 tmo ->
  (forall k, (ticks st <= k < ticks st')%nat -> in_window s0 tmo (time_time k)) ->
  (forall j, (draws st <= j)%nat -> uuid4 j <> id) ->
  held_in (_queues (self st')) queue_name id s0 tmo.
Proof.
  revert st answers r st'.
  induction conns as [|[first following] conns IH]; intros st answers r st';
    cbn [serve].
  - by intros [= <- <- <-].
  - destruct (reads_of (first :: following)) as [|data conn];
      [by intros [= <- <- <-]|].
    destruct (server_recv time_time uuid4 P data conn st) as [o st1] eqn:Hrecv.
    apply server_recv_handled in Hrecv.
    destruct (handled_counters _ _ _ _ Hrecv) as [Hticks Hdraws].
    assert (forall st2, (ticks st1 <= ticks st2)%nat ->
              (forall k, (ticks st <= k < ticks st2)%nat ->
                         in_window s0 tmo (time_time k)) ->
              held_in (_queues (self st)) queue_name id s0 tmo ->
              (forall j, (draws st <= j)%nat -> uuid4 j <> id) ->
              held_in (_queues (self st1)) queue_name id s0 tmo) as Hstep.
    { intros st2 Hle Hwin Hheld Hfresh.
      apply (handled_held _ _ _ _ Hrecv Hheld); [|by apply Hfresh].
      intros k Hk. apply Hwin. lia. }
    destruct o as [answer|e|].
    + destruct (serve time_time uuid4 P conns st1) as [[answers1 r1] st2] eqn:Hserve.
      intros [= <- <- <-] Hheld Hwin Hfresh.
      pose proof (serve_ticks _ _ _ _ _ Hserve) as Hle.
      apply (IH _ _ _ _ Hserve).
      * by apply (Hstep st2).
      * intros k Hk. apply Hwin. lia.
      * intros j Hj. apply Hfresh. lia.
    + intros [= <- <- <-] Hheld Hwin Hfresh. by apply (Hstep st1).
    + intros [= <- <- <-] Hheld Hwin Hfresh. by apply (Hstep st1).
Qed.
End ServerVisibility.

Lemma registry_get_task_ticks (time_time : nat -> Q) (d : QueueDict.t)
    (name : string) (n : nat) :
  (n <= (QueueDict.get_task time_time d name n).2)%nat.
Proof.
  unfold QueueDict.get_task.
  destruct (QueueDict._queue_dict d !! name) as [q|]; [|done].
  unfold TaskQueue.get_task.
  pose proof (get_loop_ticks time_time (TaskQueue._tasks q) n) as Hle.
  destruct (TaskQueue.get_loop time_time (TaskQueue._tasks q) n) as [[? r] ?].
  by destruct r.
Qed.

(** The answer of [QueueDict.get_task] is the task to dispatch, formatted. *)
Lemma registry_get_task_answer (time_time : nat -> Q) (d : QueueDict.t)
    (name : string) (n : nat) :
  (QueueDict.get_task time_time d name n).1.2 =
  match next_task time_time d name n with
  | Some task => QueueDict.format task
  | None => "NONE"
  end.
Proof.
  unfold QueueDict.get_task, next_task.
  destruct (QueueDict._queue_dict d !! name) as [q|]; [|done].
  destruct (TaskQueue.get_task time_time q n) as [[q' r] n'].
  by destruct r.
Qed.

(** A [GET] request is answered by [QueueDict.get_task]. *)
Lemma server_recv_get (time_time : nat -> Q) (uuid4 : nat -> string)
    (P : Pickle (gmap string TaskQueue.t)) (st : TaskQueueServer.state (blob P))
    (data : string) (conn : list (option string)) (name : string) :
  split data = ["GET"; name] ->
  (TaskQueueServer.server_recv time_time uuid4 P (Some data) conn st).1 =
  Ret (QueueDict.get_task time_time
         (TaskQueueServer._queues (TaskQueueServer.self st)) name
         (TaskQueueServer.ticks st)).1.2.
Proof.
  intros Hs. unfold TaskQueueServer.server_recv, TaskQueueServer.make_answer.
  rewrite Hs. simpl.
  by destruct (QueueDict.get_task time_time _ name _) as [[d answer] n].
Qed.

(** While the clock stays in the window, the task a [GET] would dispatch is
    not a held one. *)
Lemma next_task_held (time_time : nat -> Q) (d : QueueDict.t)
    (name id : string) (s0 : Q) (tmo : Z) (n : nat) (task : Task.t) :
  held_in d name id s0 tmo ->
  (forall k, (n <= k < (QueueDict.get_task time_time d name n).2)%nat ->
             in_window s0 tmo (time_time k)) ->
  next_task time_time d name n = Some task ->
  Task.task_id task <> id.
Proof.
  unfold held_in, QueueDict.get_task, next_task, TaskQueue.get_task.
  intros Hheld.
  destruct (QueueDict._queue_dict d !! name) as [q|]; [|done].
  specialize (Hheld q eq_refl).
  destruct (TaskQueue.get_loop time_time (TaskQueue._tasks q) n)
    as [[tasks' r] n'] eqn:Hloop.
  simpl. intros Hwin ->.
  destruct (get_loop_held time_time id s0 tmo _ _ _ _ _ Hheld Hloop) as [_ Hr];
    [|by apply Hr].
  intros k Hk. by apply Hwin.
Qed.

Section CleanIds.
Variable time_time : nat -> Q.
Variable uuid4 : nat -> string.
Variable P : Pickle (gmap string TaskQueue.t).
Import TaskQueueServer.

(** The text before the first space of an answer is the id, when ids hold
    no white space. *)
Lemma before_space_inj (a b x y : string) :
  no_space a = true -> no_space b = true ->
  a +:+ String " " x = b +:+ String " " y -> a = b.
Proof.
  revert b. induction a as [|c a IH]; intros [|c' b]; rewrite ?append_cons,
    ?append_nil_l; simpl; try done.
  - intros _ [Hc _]%andb_prop [= <- _]. done.
  - intros [Hc _]%andb_prop _ [= -> _]. done.
  - intros [_ Ha]%andb_prop [_ Hb]%andb_prop [= <- Heq].
    f_equal. by apply IH.
Qed.

Lemma format_id_inj (t t' : Task.t) :
  no_space (Task.task_id t) = true -> no_space (Task.task_id t') = true ->
  QueueDict.format t = QueueDict.format t' -> Task.task_id t = Task.task_id t'.
Proof. intros Ht Ht'. unfold QueueDict.format. by apply before_space_inj. Qed.

Lemma format_not_none (t : Task.t) : QueueDict.format t <> "NONE".
Proof.
  unfold QueueDict.format. intros Heq.
  assert (no_space "NONE" = true) as Hns by done.
  rewrite <- Heq in Hns. apply no_space_app in Hns as [_ Hns].
  rewrite append_cons in Hns. done.
Qed.

(** The queue operations keep the ids they find. *)
Lemma get_loop_clean tasks n :
  Forall (fun t => no_space (Task.task_id t) = true) tasks ->
  Forall (fun t => no_space (Task.task_id t) = true)
         (TaskQueue.get_loop time_time tasks n).1.1 /\
  (forall t, (TaskQueue.get_loop time_time tasks n).1.2 = Some t ->
             no_space (Task.task_id t) = true).
Proof.
  destruct (TaskQueue.get_loop time_time tasks n) as [[tasks' r] n'] eqn:Hloop.
  apply get_loop_spec in Hloop as [_ Hr]. simpl. destruct r as [t'|].
  - destruct Hr as (pre & task & post & k0 & k & -> & -> & _ & _ & -> & _).
    rewrite !Forall_app, !Forall_cons. intros (Hpre & Htask & Hpost).
    split; [done|]. by intros t [= <-].
  - destruct Hr as [-> _]. by split.
Qed.

Lemma ack_loop_clean tasks task_id n :
  Forall (fun t => no_space (Task.task_id t) = true) tasks ->
  Forall (fun t => no_space (Task.task_id t) = true)
         (TaskQueue.ack_loop time_time tasks task_id n).1.1.
Proof.
  destruct (TaskQueue.ack_loop time_time tasks task_id n) as [[tasks' r] n'] eqn:Hloop.
  apply ack_loop_spec in Hloop
    as [(_ & -> & _)|(pre & x & post & -> & _ & _ & _ & -> & ->)]; [done|].
  simpl. rewrite !Forall_app, !Forall_cons. intros (Hpre & Hx & Hpost).
  destruct (Task.is_waiting _).
  - apply Forall_app. by split.
  - rewrite Forall_app, Forall_cons, update_task_id. by split.
Qed.

Lemma ids_clean_insert (d : QueueDict.t) name q :
  ids_clean d ->
  Forall (fun t => no_space (Task.task_id t) = true) (TaskQueue._tasks q) ->
  ids_clean (QueueDict.mk (<[name := q]> (QueueDict._queue_dict d))).
Proof.
  intros Hd Hq name' q'. simpl. rewrite lookup_insert.
  case_decide; [by intros [= <-] | apply Hd].
Qed.

Lemma handled_clean (st st' : state (blob P)) conn o :
  handled time_time uuid4 P st conn o st' ->
  ids_clean (_queues (self st)) ->
  no_space (uuid4 (draws st)) = true ->
  ids_clean (_queues (self st')).
Proof.
  intros Hh Hc Hfresh.
  destruct Hh as [| | | |name len payload need payload' _ _ task
    |name d answer n Hget|name task_id d answer n Hack| |r fs _];
    simpl in *; try done.
  - apply ids_clean_insert; [done|]. apply Forall_app. split.
    + destruct (QueueDict._queue_dict _ !! name) as [q|] eqn:Hq;
        [by apply (Hc name) | constructor].
    + by repeat constructor.
  - revert Hget. unfold QueueDict.get_task.
    destruct (QueueDict._queue_dict _ !! name) as [q|] eqn:Hq;
      [|by intros [= <- _ _]].
    unfold TaskQueue.get_task.
    destruct (get_loop_clean (TaskQueue._tasks q) (ticks st) (Hc _ _ Hq))
      as [Hclean _].
    destruct (TaskQueue.get_loop _ _ _) as [[tasks' r] n'].
    by destruct r; intros [= <- _ _]; apply ids_clean_insert.
  - revert Hack. unfold QueueDict.ack_task.
    destruct (QueueDict._queue_dict _ !! name) as [q|] eqn:Hq;
      [|by intros [= <- _ _]].
    unfold TaskQueue.ack_task.
    pose proof (ack_loop_clean (TaskQueue._tasks q) task_id (ticks st)
                  (Hc _ _ Hq)) as Hclean.
    destruct (TaskQueue.ack_loop _ _ _ _) as [[tasks' r] n'].
    by intros [= <- _ _]; apply ids_clean_insert.
Qed.

Lemma serve_clean conns (st : state (blob P)) :
  ids_clean (_queues (self st)) ->
  (forall j, no_space (uuid4 j) = true) ->
  ids_clean (_queues (self (serve time_time uuid4 P conns st).2)).
Proof.
  intros Hc Hfresh. revert st Hc.
  induction conns as [|[first following] conns IH]; intros st Hc;
    cbn [serve]; [done|].
  destruct (reads_of (first :: following)) as [|data conn]; [done|].
  destruct (server_recv time_time uuid4 P data conn st) as [o st1] eqn:Hrecv.
  apply server_recv_handled in Hrecv.
  pose proof (handled_clean _ _ _ _ Hrecv Hc (Hfresh _)) as Hc1.
  destruct o as [answer|e|]; [|done..].
  specialize (IH st1 Hc1).
  by destruct (serve time_time uuid4 P conns st1) as [[answers r] st2].
Qed.

Lemma next_task_clean (d : QueueDict.t) name n (t : Task.t) :
  ids_clean d -> next_task time_time d name n = Some t ->
  no_space (Task.task_id t) = true.
Proof.
  intros Hc. unfold next_task, TaskQueue.get_task.
  destruct (QueueDict._queue_dict d !! name) as [q|] eqn:Hq; [|done].
  destruct (get_loop_clean (TaskQueue._tasks q) n (Hc _ _ Hq)) as [_ Hr].
  destruct (TaskQueue.get_loop _ _ _) as [[tasks' r] n']. simpl in *.
  apply Hr.
Qed.
End CleanIds.

(** C2.  A [GET] on a queue whose ids are distinct dispatches the task [T].
    Whatever requests the server then handles, as long as every clock reading
    taken since lies in the window of [T] (at least zero and fewer than its
    timeout seconds after the dispatch) and no id drawn since is the id of
    [T], a [GET] on the queue finds no task to dispatch and is answered
    [NONE], or dispatches a task whose id is not the id of [T] and is answered
    with that task.  When no id holds white space, in the registry or among
    those drawn, the answer is not the answer that handed out [T]. *)
Theorem visibility_exclusive (time_time : nat -> Q) (uuid4 : nat -> string)
    (P : Pickle (gmap string TaskQueue.t))
    (st : TaskQueueServer.state (blob P)) (queue_name : string) (T : Task.t)
    (s0 : Q) (data : string) (conn : list (option string))
    (conns : list (option string * list (option string))) (N : nat) :
  split data = ["GET"; queue_name] ->
  (forall q, QueueDict._queue_dict
               (TaskQueueServer._queues (TaskQueueServer.self st)) !! queue_name
             = Some q -> NoDup (ids q)) ->
  next_task time_time (TaskQueueServer._queues (TaskQueueServer.self st))
    queue_name (TaskQueueServer.ticks st) = Some T ->
  Task.start_wait_time T = Some s0 ->
  let st1 := (TaskQueueServer.server_recv time_time uuid4 P (Some data) conn st).2 in
  let st2 := (TaskQueueServer.serve time_time uuid4 P conns st1).2 in
  (forall k, (TaskQueueServer.ticks st1 <= k < N)%nat ->
             in_window s0 (Task.timeout T) (time_time k)) ->
  ((QueueDict.get_task time_time
      (TaskQueueServer._queues (TaskQueueServer.self st2)) queue_name
      (TaskQueueServer.ticks st2)).2 <= N)%nat ->
  (forall j, (TaskQueueServer.draws st1 <= j)%nat -> uuid4 j <> Task.task_id T) ->
  (TaskQueueServer.server_recv time_time uuid4 P (Some data) conn st).1
    = Ret (QueueDict.format T)
  /\ (forall data' conn',
        split data' = ["GET"; queue_name] ->
        let answer :=
          (TaskQueueServer.server_recv time_time uuid4 P (Some data') conn' st2).1 in
        match next_task time_time
                (TaskQueueServer._queues (TaskQueueServer.self st2)) queue_name
                (TaskQueueServer.ticks st2) with
        | None => answer = Ret "NONE"
        | Some T' =>
            answer = Ret (QueueDict.format T') /\
            Task.task_id T' <> Task.task_id T
        end)
  /\ (ids_clean (TaskQueueServer._queues (TaskQueueServer.self st)) ->
      (forall j, no_space (uuid4 j) = true) ->
      forall data' conn',
        split data' = ["GET"; queue_name] ->
        (TaskQueueServer.server_recv time_time uuid4 P (Some data') conn' st2).1
        <> Ret (QueueDict.format T)).
Proof.
  intros Hs Hnd Hnext Hstart st1 st2 Hwin HN Hfresh.
  (* the first GET *)
  assert ((TaskQueueServer.server_recv time_time uuid4 P (Some data) conn st).1
            = Ret (QueueDict.format T) /\
          held_in (TaskQueueServer._queues (TaskQueueServer.self st1)) queue_name
            (Task.task_id T) s0 (Task.timeout T)) as [Hans Hheld1].
  { unfold st1, TaskQueueServer.server_recv, TaskQueueServer.make_answer.
    rewrite Hs. simpl. unfold QueueDict.get_task.
    unfold next_task in Hnext.
    destruct (QueueDict._queue_dict _ !! queue_name) as [q|] eqn:Hq; [|done].
    unfold TaskQueue.get_task in *.
    destruct (TaskQueue.get_loop time_time (TaskQueue._tasks q)
                (TaskQueueServer.ticks st)) as [[tasks' r] n'] eqn:Hloop.
    simpl in Hnext. subst r. simpl. split; [done|].
    intros q'. simpl. rewrite lookup_insert_eq. intros [= <-]. simpl.
    by destruct (get_loop_dispatch_held time_time _ _ _ _ _ s0 (Hnd q eq_refl)
                   Hloop Hstart). }
  (* the requests in between *)
  assert (forall data' conn',
            split data' = ["GET"; queue_name] ->
            match next_task time_time
                    (TaskQueueServer._queues (TaskQueueServer.self st2))
                    queue_name (TaskQueueServer.ticks st2) with
            | None =>
                (TaskQueueServer.server_recv time_time uuid4 P (Some data')
                   conn' st2).1 = Ret "NONE"
            | Some T' =>
                (TaskQueueServer.server_recv time_time uuid4 P (Some data')
                   conn' st2).1 = Ret (QueueDict.format T') /\
                Task.task_id T' <> Task.task_id T
            end) as Hlater.
  { revert HN. unfold st2.
    destruct (TaskQueueServer.serve time_time uuid4 P conns st1)
      as [[answers r] st2'] eqn:Hserve.
    cbn [snd]. intros HN.
    pose proof (registry_get_task_ticks time_time
                  (TaskQueueServer._queues (TaskQueueServer.self st2'))
                  queue_name (TaskQueueServer.ticks st2')) as Hle.
    pose proof (serve_ticks time_time uuid4 P conns st1 answers r st2' Hserve)
      as Hticks.
    assert (held_in (TaskQueueServer._queues (TaskQueueServer.self st2'))
              queue_name (Task.task_id T) s0 (Task.timeout T)) as Hheld2.
    { apply (serve_held time_time uuid4 P queue_name (Task.task_id T) s0
               (Task.timeout T) conns st1 answers r st2' Hserve Hheld1); [|done].
      intros k Hk. apply Hwin. lia. }
    (* the later GET *)
    intros data' conn' Hs'.
    rewrite (server_recv_get _ _ _ _ _ _ queue_name Hs'), registry_get_task_answer.
    destruct (next_task time_time
                (TaskQueueServer._queues (TaskQueueServer.self st2')) queue_name
                (TaskQueueServer.ticks st2')) as [T'|] eqn:Hnext'; [|done].
    split; [done|].
    apply (next_task_held time_time _ queue_name _ s0 (Task.timeout T)
             (TaskQueueServer.ticks st2') T' Hheld2); [|done].
    intros k Hk. apply Hwin. lia. }
  split; [done|]. split; [done|].
  (* the answers on the wire *)
  intros Hclean Huuid data' conn' Hs' Heq.
  pose proof (next_task_clean time_time _ _ _ _ Hclean Hnext) as HT.
  assert (ids_clean (TaskQueueServer._queues (TaskQueueServer.self st1))) as Hclean1.
  { pose proof (server_recv_handled time_time uuid4 P (Some data) conn st) as Hh.
    unfold st1.
    destruct (TaskQueueServer.server_recv time_time uuid4 P (Some data) conn st)
      as [o st1'].
    by apply (handled_clean time_time uuid4 P st st1' conn o (Hh _ _ eq_refl)). }
  pose proof (serve_clean time_time uuid4 P conns st1 Hclean1 Huuid) as Hclean2.
  fold st2 in Hclean2.
  specialize (Hlater data' conn' Hs').
  destruct (next_task time_time
              (TaskQueueServer._queues (TaskQueueServer.self st2)) queue_name
              (TaskQueueServer.ticks st2)) as [T'|] eqn:Hnext'.
  - destruct Hlater as [Hans' Hid]. rewrite Hans' in Heq. injection Heq as Heq.
    apply Hid. apply format_id_inj; [|done..].
    by apply (next_task_clean time_time _ _ _ _ Hclean2 Hnext').
  - rewrite Hlater in Heq. injection Heq as Heq.
    by apply (format_not_none T).
Qed.

(** The sample clock stays in the window of a task dispatched at second 0
    with a timeout of 300 seconds for its first 300 readings. *)
Lemma sample_clock_in_window (k : nat) :
  (k < 300)%nat -> in_window (inject_Z 0) 300 (sample_clock k).
Proof.
  intros Hk. unfold in_window, sample_clock, Qle, Qlt, Qminus. simpl. lia.
Qed.

Lemma sample_uuid4_not_b (j : nat) : sample_uuid4 j <> "b".
Proof. destruct j; discriminate. Qed.

Lemma sample_uuid4_clean (j : nat) : no_space (sample_uuid4 j) = true.
Proof. induction j as [|j IH]; [done|]. simpl. exact IH. Qed.

(** Two tasks wait in queue [1]; three [GET]s follow one another within the
    window of the first: the first task, then the second, then [NONE]. *)
Lemma visibility_exclusive_witness :
  let d := QueueDict.mk
             {[ "1" := TaskQueue.mk [sample_fresh; Task.init "c" "1" "z" 300] ]} in
  let st : TaskQueueServer.state (blob sample_pickle) :=
    TaskQueueServer.mkState (TaskQueueServer.mk "./" 300 d) 0 0 (mkFS ∅ ∅) in
  let T := Task.set_wait sample_fresh true (Some (inject_Z 0)) in
  let recv s := TaskQueueServer.server_recv sample_clock sample_uuid4
                  sample_pickle (Some "GET 1") [] s in
  let st2 := (TaskQueueServer.serve sample_clock sample_uuid4 sample_pickle
                [(Some "GET 1", [])] (recv st).2).2 in
  next_task sample_clock d "1" 0 = Some T /\
  (recv st).1 = Ret (QueueDict.format T) /\
  (recv (recv st).2).1 = Ret "c 1 z" /\
  (recv st2).1 = Ret "NONE" /\
  (recv st2).1 <> Ret (QueueDict.format T).
Proof.
  intros d st T recv st2.
  assert (next_task sample_clock d "1" 0 = Some T) as Hnext by reflexivity.
  assert (forall q, QueueDict._queue_dict
                      (TaskQueueServer._queues (TaskQueueServer.self st)) !! "1"
                    = Some q -> NoDup (ids q)) as Hnd.
  { intros q Hq. vm_compute in Hq. injection Hq as <-. compute_done. }
  assert (ids_clean (TaskQueueServer._queues (TaskQueueServer.self st))) as Hclean.
  { intros name q Hq. simpl in Hq.
    apply lookup_singleton_Some in Hq as [_ <-]. by repeat constructor. }
  destruct (visibility_exclusive sample_clock sample_uuid4 sample_pickle st "1" T
              (inject_Z 0) "GET 1" [] [(Some "GET 1", [])] 300
              eq_refl Hnd Hnext eq_refl) as (Hfirst & Hlater & Hwire).
  - intros k Hk. apply sample_clock_in_window. lia.
  - vm_compute. lia.
  - intros j _. apply sample_uuid4_not_b.
  - split; [exact Hnext|]. split; [exact Hfirst|]. split; [reflexivity|].
    split; [exact (Hlater "GET 1" [] eq_refl)|].
    exact (Hwire Hclean sample_uuid4_clean "GET 1" [] eq_refl).
Defined.

(** * Further properties of the queue *)

Section QueueProperties.
Variable time_time : nat -> Q.
Implicit Types (q : TaskQueue.t) (task : Task.t).

(** [get_task] is first fit: the task it returns was not waiting after its
    refresh, every task before it in the queue is waiting, and it is the only
    task changed: its wait starts at a reading taken in the call.  It returns
    nothing only when every task is waiting, and then changes nothing. *)
Theorem get_task_first_fit q n q' r n' :
  TaskQueue.get_task time_time q n = (q', r, n') ->
  match r with
  | Some t =>
      exists pre task post k0 k,
        TaskQueue._tasks q = pre ++ task :: post /\
        TaskQueue._tasks q' = pre ++ t :: post /\
        Forall (fun x => Task.is_waiting x = true) pre /\
        Task.is_waiting (Task.update time_time task k0).1 = false /\
        t = Task.set_wait task true (Some (time_time k)) /\
        (n <= k0 <= k)%nat /\ n' = S k
  | None =>
      q' = q /\ Forall (fun x => Task.is_waiting x = true) (TaskQueue._tasks q)
  end.
Proof.
  unfold TaskQueue.get_task. destruct q as [tasks]. simpl.
  destruct (TaskQueue.get_loop time_time tasks n) as [[tasks' r1] n1] eqn:Hloop.
  intros [= <- <- <-].
  apply get_loop_spec in Hloop as [_ Hr]. destruct r1 as [t|]; [done|].
  by destruct Hr as [-> Hall].
Qed.

(** A task that stands first in its queue and whose window has elapsed is
    handed out again by [get_task], with a new start time. *)
Theorem get_task_redelivers q task post s n :
  TaskQueue._tasks q = task :: post ->
  Task.start_wait_time task = Some s ->
  Task.timeout task <= int_of_float (Qminus (time_time n) s) ->
  let t := Task.set_wait task true (Some (time_time (S n))) in
  TaskQueue.get_task time_time q n = (TaskQueue.mk (t :: post), Some t, S (S n)).
Proof.
  intros Hq Hs Hexp t. unfold TaskQueue.get_task. rewrite Hq.
  cbn [TaskQueue.get_loop]. unfold Task.update. rewrite Hs.
  destruct (Z.leb_spec (Task.timeout task)
              (int_of_float (Qminus (time_time n) s))); [done | lia].
Qed.

(** [get_task] neither adds nor removes a task, and keeps every id in its
    place. *)
Theorem get_task_keeps_ids q n :
  ids (TaskQueue.get_task time_time q n).1.1 = ids q.
Proof.
  unfold TaskQueue.get_task, ids.
  destruct (TaskQueue.get_loop time_time (TaskQueue._tasks q) n)
    as [[tasks' r] n'] eqn:Hloop. simpl.
  apply get_loop_spec in Hloop as [_ Hr]. destruct r as [t|].
  - destruct Hr as (pre & task & post & k0 & k & -> & -> & _ & _ & -> & _).
    by rewrite !fmap_app, !fmap_cons.
  - by destruct Hr as [-> _].
Qed.

(** [in_task] tells whether the id is in the queue, whatever the waiting
    state of the task that bears it. *)
Theorem in_task_iff q task_id :
  TaskQueue.in_task q task_id = true <-> task_id ∈ ids q.
Proof. apply in_loop_elem. Qed.
End QueueProperties.

(** A task dispatched at second 0 is the only one of its queue; at second 300
    its window of 300 seconds has elapsed. *)
Lemma get_task_redelivers_witness :
  let q := TaskQueue.mk [sample_waiting] in
  let t := Task.set_wait sample_waiting true (Some (sample_clock 301)) in
  Task.timeout sample_waiting <=
    int_of_float (Qminus (sample_clock 300) (inject_Z 0)) /\
  TaskQueue.get_task sample_clock q 300 = (TaskQueue.mk [t], Some t, 302%nat).
Proof.
  intros q t.
  assert (Task.timeout sample_waiting <=
            int_of_float (Qminus (sample_clock 300) (inject_Z 0))) as Hexp
    by (vm_compute; discriminate).
  split; [exact Hexp|].
  exact (get_task_redelivers sample_clock q sample_waiting [] (inject_Z 0) 300
           eq_refl eq_refl Hexp).
Defined.

(** The waiting task is skipped and the one behind it is handed out. *)
Lemma get_task_first_fit_witness :
  let q := TaskQueue.mk [sample_waiting; sample_fresh] in
  let t := Task.set_wait sample_fresh true (Some (sample_clock 2)) in
  TaskQueue.get_task sample_clock q 1
    = (TaskQueue.mk [sample_waiting; t], Some t, 3%nat) /\
  exists pre task post k0 k,
    TaskQueue._tasks q = pre ++ task :: post /\
    Forall (fun x => Task.is_waiting x = true) pre /\
    t = Task.set_wait task true (Some (sample_clock k)) /\
    (1 <= k0 <= k)%nat.
Proof.
  intros q t.
  assert (TaskQueue.get_task sample_clock q 1
          = (TaskQueue.mk [sample_waiting; t], Some t, 3%nat)) as Hget
    by reflexivity.
  split; [exact Hget|].
  destruct (get_task_first_fit sample_clock q 1 _ _ _ Hget)
    as (pre & task & post & k0 & k & Hq & _ & Hpre & _ & Ht & Hk & _).
  by exists pre, task, post, k0, k.
Defined.

(** * Further properties of the registry and of the handler *)

Section HandlerProperties.
Variable time_time : nat -> Q.
Variable uuid4 : nat -> string.
Variable P : Pickle (gmap string TaskQueue.t).
Import TaskQueueServer.
Implicit Types (st : state (blob P)) (conn : list (option string)).

(** The operations on one queue leave the other queues as they are. *)
Theorem other_queues_untouched (d : QueueDict.t) name name' task task_id n :
  name' <> name ->
  QueueDict._queue_dict (QueueDict.add_task d name task).1 !! name'
    = QueueDict._queue_dict d !! name'
  /\ QueueDict._queue_dict (QueueDict.get_task time_time d name n).1.1 !! name'
    = QueueDict._queue_dict d !! name'
  /\ QueueDict._queue_dict (QueueDict.ack_task time_time d name task_id n).1.1
       !! name'
    = QueueDict._queue_dict d !! name'.
Proof.
  intros Hne. repeat apply conj.
  - unfold QueueDict.add_task. simpl. by rewrite lookup_insert_ne.
  - unfold QueueDict.get_task.
    destruct (QueueDict._queue_dict d !! name) as [q|]; [|done].
    destruct (TaskQueue.get_task time_time q n) as [[q' r] n'].
    destruct r; simpl; by rewrite lookup_insert_ne.
  - unfold QueueDict.ack_task.
    destruct (QueueDict._queue_dict d !! name) as [q|]; [|done].
    destruct (TaskQueue.ack_task time_time q task_id n) as [[q' r] n'].
    simpl. by rewrite lookup_insert_ne.
Qed.

(** The loop of [recv_add] never ends when the connection brings fewer
    characters than the declared length and then nothing. *)
Lemma recv_payload_hangs (chunks : list string) (payload : string) (need : Z) :
  Z.of_nat (String.length (payload +:+ join_chunks chunks)) < need ->
  recv_payload need payload (Some <$> chunks) = Hang.
Proof.
  revert payload. induction chunks as [|c chunks IH]; intros payload;
    cbn [join_chunks foldr fmap list_fmap recv_payload].
  - rewrite append_nil_r. intros Hlt.
    by destruct (Z.ltb_spec (Z.of_nat (String.length payload)) need); [|lia].
  - fold (join_chunks chunks). intros Hlt.
    pose proof Hlt as Hlt'. rewrite length_append in Hlt'.
    destruct (Z.ltb_spec (Z.of_nat (String.length payload)) need); [|lia].
    apply IH. by rewrite append_assoc.
Qed.

(** An [ADD] whose declared length is larger than what the connection brings
    is never answered, and creates no task. *)
Theorem short_add_hangs st data conn queue_name len payload need
    (chunks : list string) :
  split data = ["ADD"; queue_name; len; payload] ->
  int_of_str len = Some need ->
  conn = Some <$> chunks ->
  Z.of_nat (String.length (payload +:+ join_chunks chunks)) < need ->
  server_recv time_time uuid4 P (Some data) conn st = (Hang, st).
Proof.
  intros Hs Hint -> Hlt. unfold server_recv, make_answer. rewrite Hs. simpl.
  by rewrite Hint, (recv_payload_hangs chunks payload need Hlt).
Qed.

(** After an [ADD] is answered, [IN] with the queue and the id answers [YES]
    and changes nothing. *)
Theorem add_then_in st st' data conn data' conn' queue_name len payload answer :
  split data = ["ADD"; queue_name; len; payload] ->
  make_answer time_time uuid4 P data conn st = (Ret answer, st') ->
  split data' = ["IN"; queue_name; answer] ->
  server_recv time_time uuid4 P (Some data') conn' st' = (Ret "YES", st').
Proof.
  intros Hs Hmk Hs'.
  destruct (add_completes time_time uuid4 P st data conn queue_name len payload
              answer st' Hs Hmk)
    as (need & chunks & rest & _ & _ & _ & _ & _ & ->).
  unfold server_recv, make_answer. rewrite Hs'. simpl.
  unfold QueueDict.in_task, QueueDict.add_task. simpl.
  rewrite lookup_insert_eq. unfold TaskQueue.in_task. simpl.
  rewrite in_loop_app. simpl. rewrite String.eqb_refl.
  by rewrite orb_true_r.
Qed.

(** A run of requests goes on where the run before it stopped; an exception
    that leaves the handler ends it: the answers sent so far stand, and no
    later connection is served. *)
Theorem serve_app conns1 conns2 st :
  serve time_time uuid4 P (conns1 ++ conns2) st =
  match serve time_time uuid4 P conns1 st with
  | (answers1, Ret _, st1) =>
      let '(answers2, r, st2) := serve time_time uuid4 P conns2 st1 in
      (answers1 ++ answers2, r, st2)
  | stopped => stopped
  end.
Proof.
  revert st. induction conns1 as [|[first following] conns1 IH]; intros st.
  - cbn [app serve]. by destruct (serve time_time uuid4 P conns2 st) as [[? ?] ?].
  - cbn [app serve].
    destruct (reads_of (first :: following)) as [|data conn]; [done|].
    destruct (server_recv time_time uuid4 P data conn st) as [[answer|e|] st1];
      [|done..].
    rewrite IH.
    destruct (serve time_time uuid4 P conns1 st1) as [[answers1 [[]|e|]] st2];
      [|done..].
    by destruct (serve time_time uuid4 P conns2 st2) as [[? ?] ?].
Qed.

(** When the snapshot file is missing or empty, [init_from_base] keeps the
    registry and raises nothing; when the file does not unpickle, the
    exception leaves [run] before any connection is served. *)
Theorem init_from_base_cases (d0 : QueueDict.t) path (fs : FS (blob P)) :
  let file := os_path_join path "server.log" in
  (files fs !! file = None ->
     QueueDict.init_from_base P d0 path fs = (Ret (), d0))
  /\ (forall b, files fs !! file = Some b -> getsize P b <= 0 ->
        QueueDict.init_from_base P d0 path fs = (Ret (), d0))
  /\ (forall b, files fs !! file = Some b -> 0 < getsize P b ->
        pickle_load P b = None ->
        QueueDict.init_from_base P d0 path fs = (Raise UnpicklingError, d0)
        /\ forall conns timeout n k,
             run time_time uuid4 P conns (mkState (mk path timeout d0) n k fs)
             = ([], Raise UnpicklingError, mkState (mk path timeout d0) n k fs)).
Proof.
  intros file. unfold QueueDict.init_from_base. fold file. repeat apply conj.
  - by intros ->.
  - intros b -> Hsize. by destruct (Z.ltb_spec 0 (getsize P b)); [lia|].
  - intros b Hb Hsize Hload.
    assert (QueueDict.init_from_base P d0 path fs = (Raise UnpicklingError, d0))
      as Hinit.
    { unfold QueueDict.init_from_base. fold file. rewrite Hb.
      destruct (Z.ltb_spec 0 (getsize P b)); [|lia]. by rewrite Hload. }
    split; [exact Hinit|].
    intros conns timeout n k. unfold run. simpl. by rewrite Hinit.
Qed.
End HandlerProperties.

(** [ADD 1 10 12345] with three more characters, then nothing. *)
Lemma short_add_hangs_witness :
  let st : TaskQueueServer.state (blob sample_pickle) :=
    TaskQueueServer.mkState (TaskQueueServer.init (Some "./") (Some 300)) 0 0
      (mkFS ∅ ∅) in
  Z.of_nat (String.length ("12345" +:+ join_chunks ["678"])) < 10 /\
  TaskQueueServer.server_recv sample_clock sample_uuid4 sample_pickle
    (Some "ADD 1 10 12345") [Some "678"] st = (Hang, st).
Proof.
  intros st.
  assert (Z.of_nat (String.length ("12345" +:+ join_chunks ["678"])) < 10) as Hlt
    by (by vm_compute).
  split; [exact Hlt|].
  exact (short_add_hangs sample_clock sample_uuid4 sample_pickle st
           "ADD 1 10 12345" [Some "678"] "1" "10" "12345" 10 ["678"]
           eq_refl eq_refl eq_refl Hlt).
Defined.

(** The first two requests of the repository's base scenario. *)
Lemma add_then_in_witness :
  let st : TaskQueueServer.state (blob sample_pickle) :=
    TaskQueueServer.mkState (TaskQueueServer.init (Some "./") (Some 300)) 0 0
      (mkFS ∅ ∅) in
  exists st',
    TaskQueueServer.make_answer sample_clock sample_uuid4 sample_pickle
      "ADD 1 5 12345" [] st = (Ret "u", st') /\
    TaskQueueServer.server_recv sample_clock sample_uuid4 sample_pickle
      (Some "IN 1 u") [] st' = (Ret "YES", st').
Proof.
  intros st. eexists. split; [reflexivity|].
  exact (add_then_in sample_clock sample_uuid4 sample_pickle st _
           "ADD 1 5 12345" [] "IN 1 u" [] "1" "5" "12345" "u"
           eq_refl eq_refl eq_refl).
Defined.

Lemma other_queues_untouched_witness :
  let d := QueueDict.mk {[ "1" := TaskQueue.mk [sample_fresh] ]} in
  "1" <> "2" /\
  QueueDict._queue_dict (QueueDict.get_task sample_clock d "2" 0).1.1 !! "1"
    = Some (TaskQueue.mk [sample_fresh]).
Proof.
  intros d. assert ("1" <> "2") as Hne by discriminate.
  split; [exact Hne|].
  destruct (other_queues_untouched sample_clock d "2" "1" sample_waiting "a" 0 Hne)
    as (_ & Hget & _).
  rewrite Hget. reflexivity.
Defined.

(** An [ADD] of three words. *)
Lemma malformed_request_error_witness :
  let st : TaskQueueServer.state (blob sample_pickle) :=
    TaskQueueServer.mkState (TaskQueueServer.init (Some "./") (Some 300)) 0 0
      (mkFS ∅ ∅) in
  arity "ADD" <> Some (S (List.length ["1"; "5"])) /\
  TaskQueueServer.server_recv sample_clock sample_uuid4 sample_pickle
    (Some "ADD 1 5") [] st = (Ret "ERROR", st).
Proof.
  intros st.
  assert (arity "ADD" <> Some (S (List.length ["1"; "5"]))) as Har by discriminate.
  split; [exact Har|].
  exact (malformed_request_error sample_clock sample_uuid4 sample_pickle
           "ADD 1 5" [] st "ADD" ["1"; "5"] eq_refl Har).
Defined.

